(** * teleformat: the phone-format table generator (phone_format.py)

    A shallow embedding of the script's four passes

      harvest (lines 7-49)  ->  derived fields (62-70)
        ->  Government of Canada enrichment (73-134)  ->  sort and write (141-164)

    and the properties of the table it writes.

    Conventions.
    - A Python [str] is a Rocq [string]; one [ascii] stands for one code point
      in the range 0..255, so [len], indexing and [<] on strings are those of
      Python on such text.
    - A Python [int] is a [Z].
    - A Python [dict] is an association list in insertion order with unique
      keys ([dict_set] keeps both properties).
    - The inner dict of one region is the record [RegionFormatRecord]; a field
      of type [option _] is a key that may be absent from the dict.
    - Code that may raise returns a [result]. *)

From Stdlib Require Import ZArith List String Ascii Bool Lia.
From Stdlib Require Import Sorted Permutation.
From Stdlib Require Import DecimalString DecimalZ DecimalPos.
From Stdlib Require Import Floats.SpecFloat.
From Stdlib Require Import OrderedTypeEx.
Import ListNotations.

Open Scope string_scope.
Open Scope Z_scope.

(** ** Exceptions and results *)

Inductive exn : Type :=
| ConnectionError
| HTTPError
| JSONDecodeError
| AttributeError
| TypeError
| KeyError
| IndexError
| ValueError.

Inductive result (A : Type) : Type :=
| Ok (a : A)
| Raise (e : exn).

Arguments Ok {A} a.
Arguments Raise {A} e.

Definition bind {A B : Type} (m : result A) (k : A -> result B) : result B :=
  match m with
  | Ok a => k a
  | Raise e => Raise e
  end.

Notation "x <- m ;; k" := (bind m (fun x => k))
  (at level 61, m at next level, right associativity).

Fixpoint mapM {A B : Type} (f : A -> result B) (l : list A) : result (list B) :=
  match l with
  | [] => Ok []
  | a :: l' => b <- f a ;; bs <- mapM f l' ;; Ok (b :: bs)
  end.

(** ** Values decoded from JSON *)

#[warnings="-register-all"]
Inductive json : Type :=
| JNull
| JBool (b : bool)
| JInt (z : Z)
| JFloat (f : spec_float)
| JStr (s : string)
| JArr (items : list json)
| JObj (members : list (string * json)).

(** ** Python dicts: association lists in insertion order *)

Definition dict (V : Type) : Type := list (string * V).

Fixpoint dict_get {V : Type} (k : string) (d : dict V) : option V :=
  match d with
  | [] => None
  | (k', v) :: d' => if String.eqb k k' then Some v else dict_get k d'
  end.

(** [d[k] = v]: an existing key keeps its position, a new key goes last. *)
Fixpoint dict_set {V : Type} (k : string) (v : V) (d : dict V) : dict V :=
  match d with
  | [] => [(k, v)]
  | (k', v') :: d' =>
      if String.eqb k k' then (k', v) :: d' else (k', v') :: dict_set k v d'
  end.

Definition dict_mem {V : Type} (k : string) (d : dict V) : bool :=
  match dict_get k d with
  | Some _ => true
  | None => false
  end.

Definition keys {V : Type} (d : dict V) : list string := map fst d.

(** ** Builtins on strings and integers *)

(** [str(z)] for an int. *)
Definition str_int (z : Z) : string := NilZero.string_of_int (Z.to_int z).

Fixpoint repeat_string (s : string) (n : nat) : string :=
  match n with
  | O => ""
  | S n' => s ++ repeat_string s n'
  end.

(** [s * n]: the empty string when [n <= 0]. *)
Definition str_mul (s : string) (n : Z) : string := repeat_string s (Z.to_nat n).

Definition len_str (s : string) : Z := Z.of_nat (String.length s).

(** [max(x :: xs)] on ints. *)
Definition py_max (x : Z) (xs : list Z) : Z := fold_left Z.max xs x.

(** ** The phonenumbers metadata the harvester reads *)

Module phonenumbers.

Record PhoneNumberDesc : Type := {
  possible_length : list Z
}.

Record PhoneMetadata : Type := {
  country_code : Z;
  general_desc : option PhoneNumberDesc
}.

End phonenumbers.

(** ** The record of one region *)

Record RegionFormatRecord : Type := {
  country_code : string;
  max_length : Z;
  example_format : string;
  ISO : option string;
  total_max_digits : option Z;
  regex : option string;
  GC_ID : option json;
  GC_NM_AB_EN : option json;
  GC_NM_AB_FR : option json
}.

Definition set_ISO (v : string) (r : RegionFormatRecord) : RegionFormatRecord :=
  {| country_code := country_code r; max_length := max_length r;
     example_format := example_format r;
     ISO := Some v; total_max_digits := total_max_digits r; regex := regex r;
     GC_ID := GC_ID r; GC_NM_AB_EN := GC_NM_AB_EN r; GC_NM_AB_FR := GC_NM_AB_FR r |}.

Definition set_total_max_digits (v : Z) (r : RegionFormatRecord) : RegionFormatRecord :=
  {| country_code := country_code r; max_length := max_length r;
     example_format := example_format r;
     ISO := ISO r; total_max_digits := Some v; regex := regex r;
     GC_ID := GC_ID r; GC_NM_AB_EN := GC_NM_AB_EN r; GC_NM_AB_FR := GC_NM_AB_FR r |}.

Definition set_regex (v : string) (r : RegionFormatRecord) : RegionFormatRecord :=
  {| country_code := country_code r; max_length := max_length r;
     example_format := example_format r;
     ISO := ISO r; total_max_digits := total_max_digits r; regex := Some v;
     GC_ID := GC_ID r; GC_NM_AB_EN := GC_NM_AB_EN r; GC_NM_AB_FR := GC_NM_AB_FR r |}.

Definition set_GC_ID (v : json) (r : RegionFormatRecord) : RegionFormatRecord :=
  {| country_code := country_code r; max_length := max_length r;
     example_format := example_format r;
     ISO := ISO r; total_max_digits := total_max_digits r; regex := regex r;
     GC_ID := Some v; GC_NM_AB_EN := GC_NM_AB_EN r; GC_NM_AB_FR := GC_NM_AB_FR r |}.

Definition set_GC_NM_AB_EN (v : json) (r : RegionFormatRecord) : RegionFormatRecord :=
  {| country_code := country_code r; max_length := max_length r;
     example_format := example_format r;
     ISO := ISO r; total_max_digits := total_max_digits r; regex := regex r;
     GC_ID := GC_ID r; GC_NM_AB_EN := Some v; GC_NM_AB_FR := GC_NM_AB_FR r |}.

Definition set_GC_NM_AB_FR (v : json) (r : RegionFormatRecord) : RegionFormatRecord :=
  {| country_code := country_code r; max_length := max_length r;
     example_format := example_format r;
     ISO := ISO r; total_max_digits := total_max_digits r; regex := regex r;
     GC_ID := GC_ID r; GC_NM_AB_EN := GC_NM_AB_EN r; GC_NM_AB_FR := Some v |}.

Definition table : Type := dict RegionFormatRecord.

(** ** Pass 1: the metadata harvester (lines 7-49) *)

(** Lines 31-37. *)
Definition build_example_format (cc : string) (ml : Z) : string :=
  let example_format := "+" ++ cc ++ " " in
  if ml <=? 4 then example_format ++ str_mul "X" ml
  else if ml <=? 7 then example_format ++ ("XXX " ++ str_mul "X" (ml - 3))
  else example_format ++ ("XXX XXX " ++ str_mul "X" (ml - 6)).

Section Harvester.

(** [PhoneMetadata.metadata_for_region(region, None)]: it may raise, return
    [None], or return the metadata of the region. *)
Variable metadata_for_region :
  string -> result (option phonenumbers.PhoneMetadata).

(** The body of the loop of line 17 for one region. *)
Definition harvest_region (phone_format_data : table) (region : string) : table :=
  match metadata_for_region region with
  | Raise _ => phone_format_data
  | Ok None => phone_format_data
  | Ok (Some metadata) =>
      match phonenumbers.general_desc metadata with
      | None => phone_format_data
      | Some desc =>
          match phonenumbers.possible_length desc with
          | [] => phone_format_data
          | l :: ls =>
              let cc := str_int (phonenumbers.country_code metadata) in
              let ml := py_max l ls in
              dict_set region
                {| country_code := cc;
                   max_length := ml;
                   example_format := build_example_format cc ml;
                   ISO := None; total_max_digits := None; regex := None;
                   GC_ID := None; GC_NM_AB_EN := None; GC_NM_AB_FR := None |}
                phone_format_data
          end
      end
  end.

Definition get_up_to_date_phone_formats (regions : list string) : table :=
  fold_left harvest_region regions [].

End Harvester.

(** ** Pass 2: the derived fields (lines 62-70) *)

Definition build_regex (cc : string) (ml : Z) : string :=
  "^\+" ++ cc ++ "\d{" ++ str_int ml ++ "}$".

Definition add_fields_record (key : string) (data : RegionFormatRecord)
  : RegionFormatRecord :=
  let data := set_ISO key data in
  let data := set_total_max_digits (len_str (country_code data) + max_length data) data in
  set_regex (build_regex (country_code data) (max_length data)) data.

Definition add_fields (phone_format_data : table) : table :=
  map (fun kv => (fst kv, add_fields_record (fst kv) (snd kv))) phone_format_data.

(** ** Pass 3: the Government of Canada enrichment (lines 73-134) *)

(** *** Builtins on decoded JSON *)

Definition truthy (v : json) : bool :=
  match v with
  | JNull => false
  | JBool b => b
  | JInt z => negb (z =? 0)
  | JFloat (S754_zero _) => false
  | JFloat _ => true
  | JStr s => negb (String.eqb s "")
  | JArr [] => false
  | JArr (_ :: _) => true
  | JObj [] => false
  | JObj (_ :: _) => true
  end.

Definition char_str (c : ascii) : json := JStr (String c "").

(** The items a [for] loop over [v] visits. *)
Definition iterate (v : json) : result (list json) :=
  match v with
  | JArr items => Ok items
  | JStr s => Ok (map char_str (list_ascii_of_string s))
  | JObj members => Ok (map (fun kv => JStr (fst kv)) members)
  | _ => Raise TypeError
  end.

Definition py_len (v : json) : result nat :=
  match v with
  | JArr items => Ok (List.length items)
  | JStr s => Ok (String.length s)
  | JObj members => Ok (List.length members)
  | _ => Raise TypeError
  end.

(** [v[i]] for an int [i >= 0]; the keys of a decoded object are strings, so
    an int is never one of them. *)
Definition getitem (v : json) (i : nat) : result json :=
  match v with
  | JArr items =>
      match nth_error items i with
      | Some x => Ok x
      | None => Raise IndexError
      end
  | JStr s =>
      match String.get i s with
      | Some c => Ok (char_str c)
      | None => Raise IndexError
      end
  | JObj _ => Raise KeyError
  | _ => Raise TypeError
  end.

(** [v.get(key, default)]: only a dict has the method. *)
Definition method_get (v : json) (key : string) (default : json) : result json :=
  match v with
  | JObj members =>
      match dict_get key members with
      | Some x => Ok x
      | None => Ok default
      end
  | _ => Raise AttributeError
  end.

(** [v == name] for a str [name]. *)
Definition eq_str (v : json) (name : string) : bool :=
  match v with
  | JStr s => String.eqb s name
  | _ => false
  end.

(** [v in phone_format_data]: a list or a dict is unhashable. *)
Definition contains (phone_format_data : table) (v : json) : result (option string) :=
  match v with
  | JStr s => Ok (if dict_mem s phone_format_data then Some s else None)
  | JArr _ | JObj _ => Raise TypeError
  | _ => Ok None
  end.

(** *** The HTTP exchange *)

Inductive http_reply : Type :=
| GetRaises (e : exn)
| Response (status_code : Z) (body : result json).

Definition raise_for_status (status_code : Z) : result unit :=
  if (400 <=? status_code) && (status_code <? 600) then Raise HTTPError else Ok tt.

(** Lines 76-79. *)
Definition fetch (reply : http_reply) : result json :=
  match reply with
  | GetRaises e => Raise e
  | Response status_code body => _ <- raise_for_status status_code ;; body
  end.

(** *** Locating the columns (lines 83-116) *)

Record indices : Type := {
  iso_alpha_2_index : option nat;
  gc_id_index : option nat;
  gc_nm_ab_en_index : option nat;
  gc_nm_ab_fr_index : option nat
}.

Definition no_indices : indices :=
  {| iso_alpha_2_index := None; gc_id_index := None;
     gc_nm_ab_en_index := None; gc_nm_ab_fr_index := None |}.

Definition fallback_indices : indices :=
  {| iso_alpha_2_index := Some 19%nat; gc_id_index := Some 0%nat;
     gc_nm_ab_en_index := Some 4%nat; gc_nm_ab_fr_index := Some 5%nat |}.

(** The body of the loop of line 89. *)
Definition scan_field (ix : indices) (i : nat) (field : json) : result indices :=
  id <- method_get field "id" JNull ;;
  if eq_str id "ISO_ALPHA_2_CD" then
    Ok {| iso_alpha_2_index := Some i; gc_id_index := gc_id_index ix;
          gc_nm_ab_en_index := gc_nm_ab_en_index ix;
          gc_nm_ab_fr_index := gc_nm_ab_fr_index ix |}
  else if eq_str id "GC_ID" then
    Ok {| iso_alpha_2_index := iso_alpha_2_index ix; gc_id_index := Some i;
          gc_nm_ab_en_index := gc_nm_ab_en_index ix;
          gc_nm_ab_fr_index := gc_nm_ab_fr_index ix |}
  else if eq_str id "GC_NM_AB_EN" then
    Ok {| iso_alpha_2_index := iso_alpha_2_index ix; gc_id_index := gc_id_index ix;
          gc_nm_ab_en_index := Some i;
          gc_nm_ab_fr_index := gc_nm_ab_fr_index ix |}
  else if eq_str id "GC_NM_AB_FR" then
    Ok {| iso_alpha_2_index := iso_alpha_2_index ix; gc_id_index := gc_id_index ix;
          gc_nm_ab_en_index := gc_nm_ab_en_index ix;
          gc_nm_ab_fr_index := Some i |}
  else Ok ix.

Fixpoint scan_fields (ix : indices) (i : nat) (fields : list json) : result indices :=
  match fields with
  | [] => Ok ix
  | field :: rest => ix' <- scan_field ix i field ;; scan_fields ix' (S i) rest
  end.

(** Lines 83-116: the indices after the scan and the fallback, and the value
    of [records]. *)
Definition locate_columns (gc_data : json) : result (indices * json) :=
  fields <- method_get gc_data "fields" (JArr []) ;;
  items <- iterate fields ;;
  ix <- scan_fields no_indices 0 items ;;
  records <- method_get gc_data "records" (JArr []) ;;
  match iso_alpha_2_index ix with
  | None => if truthy records then Ok (fallback_indices, records) else Ok (ix, records)
  | Some _ => Ok (ix, records)
  end.

(** The four indices when none of them is [None] (line 118). *)
Record columns : Type := {
  col_iso : nat;
  col_id : nat;
  col_en : nat;
  col_fr : nat
}.

Definition all_indices (ix : indices) : option columns :=
  match iso_alpha_2_index ix, gc_id_index ix, gc_nm_ab_en_index ix, gc_nm_ab_fr_index ix with
  | Some i, Some g, Some e, Some f =>
      Some {| col_iso := i; col_id := g; col_en := e; col_fr := f |}
  | _, _, _, _ => None
  end.

Definition max_index (c : columns) : nat :=
  Nat.max (Nat.max (Nat.max (col_iso c) (col_id c)) (col_en c)) (col_fr c).

(** *** The merge loop (lines 118-127)

    The loop mutates the table in place and may raise half way; what it has
    written by then stays. A computation is a function from the table to the
    table it leaves and its outcome. *)

Definition M (A : Type) : Type := table -> table * result A.

Definition ret {A : Type} (a : A) : M A := fun d => (d, Ok a).

Definition lift {A : Type} (r : result A) : M A := fun d => (d, r).

Definition bindM {A B : Type} (m : M A) (k : A -> M B) : M B :=
  fun d =>
    match m d with
    | (d', Ok a) => k a d'
    | (d', Raise e) => (d', Raise e)
    end.

Notation "x <~ m ;; k" := (bindM m (fun x => k))
  (at level 61, m at next level, right associativity).

(** [phone_format_data[k][field] = v], written as the update of the record. *)
Definition update_record (k : string) (f : RegionFormatRecord -> RegionFormatRecord)
  : M unit :=
  fun d =>
    match dict_get k d with
    | Some r => (dict_set k (f r) d, Ok tt)
    | None => (d, Raise KeyError)
    end.

Definition membership (v : json) : M (option string) :=
  fun d => (d, contains d v).

(** The body of the loop of line 119. *)
Definition merge_record (c : columns) (record : json) : M unit :=
  n <~ lift (py_len record) ;;
  if (max_index c <? n)%nat then
    iso_code <~ lift (getitem record (col_iso c)) ;;
    if truthy iso_code then
      found <~ membership iso_code ;;
      match found with
      | Some k =>
          v <~ lift (getitem record (col_id c)) ;;
          _ <~ update_record k (set_GC_ID v) ;;
          v <~ lift (getitem record (col_en c)) ;;
          _ <~ update_record k (set_GC_NM_AB_EN v) ;;
          v <~ lift (getitem record (col_fr c)) ;;
          update_record k (set_GC_NM_AB_FR v)
      | None => ret tt
      end
    else ret tt
  else ret tt.

Fixpoint for_each {A : Type} (body : A -> M unit) (l : list A) : M unit :=
  match l with
  | [] => ret tt
  | a :: l' => _ <~ body a ;; for_each body l'
  end.

(** Lines 119-127: the loop over [records]. *)
Definition merge_all (c : columns) (records : json) : M unit :=
  items <~ lift (iterate records) ;;
  for_each (merge_record c) items.

(** The block under [try] (lines 74-129). *)
Definition enrich (reply : http_reply) : M unit :=
  gc_data <~ lift (fetch reply) ;;
  located <~ lift (locate_columns gc_data) ;;
  match all_indices (fst located) with
  | Some c => merge_all c (snd located)
  | None => ret tt
  end.

(** [try: ... except Exception: ...]: the handler only prints, the table
    stays as the block left it. *)
Definition enrichment (reply : http_reply) (phone_format_data : table) : table :=
  fst (enrich reply phone_format_data).

Definition enrichment_failed (reply : http_reply) (phone_format_data : table) : bool :=
  match snd (enrich reply phone_format_data) with
  | Ok _ => false
  | Raise _ => true
  end.

(** ** Pass 4: the sort (lines 141-155) and the write (163-164) *)

(** *** [int] on a str

    [int(s)] skips the whitespace around the number (tab to carriage return,
    space, and the code points 133 and 160), reads an optional sign and then
    decimal digits, between which single underscores may stand. *)

Definition is_space (c : ascii) : bool :=
  let n := nat_of_ascii c in
  ((9 <=? n) && (n <=? 13) || (n =? 32) || (n =? 133) || (n =? 160))%nat.

Fixpoint lstrip (s : string) : string :=
  match s with
  | EmptyString => EmptyString
  | String c s' => if is_space c then lstrip s' else s
  end.

Fixpoint rstrip (s : string) : string :=
  match s with
  | EmptyString => EmptyString
  | String c s' =>
      match rstrip s' with
      | EmptyString => if is_space c then EmptyString else String c EmptyString
      | t => String c t
      end
  end.

Definition strip (s : string) : string := lstrip (rstrip s).

Definition digit_value (c : ascii) : option Z :=
  let n := nat_of_ascii c in
  if ((48 <=? n) && (n <=? 57))%nat then Some (Z.of_nat n - 48) else None.

Fixpoint parse_digits (acc : Z) (after_digit : bool) (s : string) : result Z :=
  match s with
  | EmptyString => if after_digit then Ok acc else Raise ValueError
  | String c s' =>
      match digit_value c with
      | Some d => parse_digits (10 * acc + d) true s'
      | None =>
          if Ascii.eqb c "_" && after_digit then parse_digits acc false s'
          else Raise ValueError
      end
  end.

Definition py_int (s : string) : result Z :=
  match strip s with
  | String c t =>
      if Ascii.eqb c "+" then parse_digits 0 false t
      else if Ascii.eqb c "-" then z <- parse_digits 0 false t ;; Ok (- z)
      else parse_digits 0 false (String c t)
  | EmptyString => Raise ValueError
  end.

(** *** [sorted]: a stable sort *)

Fixpoint insert_by {A : Type} (le : A -> A -> bool) (x : A) (l : list A) : list A :=
  match l with
  | [] => [x]
  | y :: l' => if le x y then x :: y :: l' else y :: insert_by le x l'
  end.

Definition sorted_by {A : Type} (le : A -> A -> bool) (l : list A) : list A :=
  fold_right (insert_by le) [] l.

(** [sorted(ks, key=int)]: the keys are computed first, any failure raises. *)
Definition sorted_by_int (ks : list string) : result (list string) :=
  decorated <- mapM (fun k => z <- py_int k ;; Ok (z, k)) ks ;;
  Ok (map snd (sorted_by (fun a b => fst a <=? fst b) decorated)).

Definition entry : Type := (string * RegionFormatRecord)%type.

(** [sorted(group, key=lambda x: x[0])]. *)
Definition sorted_by_iso (group : list entry) : list entry :=
  sorted_by (fun a b => String.leb (fst a) (fst b)) group.

(** *** Grouping (lines 144-149) *)

Definition group_step (country_code_groups : dict (list entry)) (item : entry)
  : dict (list entry) :=
  let cc := country_code (snd item) in
  let groups :=
    if dict_mem cc country_code_groups then country_code_groups
    else dict_set cc [] country_code_groups in
  match dict_get cc groups with
  | Some group => dict_set cc (group ++ [item])%list groups
  | None => groups
  end.

Definition group_by_country_code (phone_format_data : table) : dict (list entry) :=
  fold_left group_step phone_format_data [].

(** *** Rebuilding the mapping (lines 152-155)

    [country_code] ranges over the keys of [country_code_groups], so the
    lookup of line 154 finds its group. *)

Definition group_of (country_code_groups : dict (list entry)) (cc : string) : list entry :=
  match dict_get cc country_code_groups with
  | Some group => group
  | None => []
  end.

Definition emit_group (sorted_phone_format_data : table) (group : list entry) : table :=
  fold_left (fun out item => dict_set (fst item) (snd item) out)
            (sorted_by_iso group) sorted_phone_format_data.

Definition sort_table (phone_format_data : table) : result table :=
  let country_code_groups := group_by_country_code phone_format_data in
  order <- sorted_by_int (keys country_code_groups) ;;
  Ok (fold_left (fun out cc => emit_group out (group_of country_code_groups cc))
                order []).

(** *** The whole script

    A run that reaches line 164 hands the sorted table to [json.dump] for the
    file [output_file]; a run that raises before that writes nothing. Line 3
    imports phonenumbers before the [try] of line 52, so the handler of line
    56 is never entered and the table is always the harvester's. *)

Definition output_file : string := "phone_formats_e164.json".

Record written : Type := {
  file_name : string;
  document : table
}.

Section Script.

Variable metadata_for_region :
  string -> result (option phonenumbers.PhoneMetadata).
Variable regions : list string.
Variable reply : http_reply.

Definition harvested : table :=
  add_fields (get_up_to_date_phone_formats metadata_for_region regions).

Definition enriched : table := enrichment reply harvested.

Definition main : result written :=
  sorted_phone_format_data <- sort_table enriched ;;
  Ok {| file_name := output_file; document := sorted_phone_format_data |}.

End Script.

(** ** Sample data *)

Definition sample_metadata (region : string)
  : result (option phonenumbers.PhoneMetadata) :=
  let md cc lens :=
    Ok (Some {| phonenumbers.country_code := cc;
                phonenumbers.general_desc :=
                  Some {| phonenumbers.possible_length := lens |} |}) in
  if String.eqb region "US" then md 1 [10]
  else if String.eqb region "CA" then md 1 [10]
  else if String.eqb region "GB" then md 44 [7; 9; 10]
  else if String.eqb region "NU" then md 683 [4]
  else if String.eqb region "SH" then md 290 [4; 5]
  else if String.eqb region "XE" then
    Ok (Some {| phonenumbers.country_code := 999;
                phonenumbers.general_desc :=
                  Some {| phonenumbers.possible_length := [] |} |})
  else if String.eqb region "XD" then
    Ok (Some {| phonenumbers.country_code := 998;
                phonenumbers.general_desc := None |})
  else if String.eqb region "XR" then Raise KeyError
  else Ok None.

Definition sample_regions : list string :=
  ["US"; "GB"; "XE"; "CA"; "XR"; "NU"; "ZZ"; "SH"; "XD"].

(** What the harvester stores for GB and for SH in the sample. *)
Definition sample_GB : RegionFormatRecord :=
  {| country_code := "44"; max_length := 10; example_format := "+44 XXX XXX XXXX";
     ISO := None; total_max_digits := None; regex := None;
     GC_ID := None; GC_NM_AB_EN := None; GC_NM_AB_FR := None |}.

Definition sample_SH : RegionFormatRecord :=
  {| country_code := "290"; max_length := 5; example_format := "+290 XXX XX";
     ISO := None; total_max_digits := None; regex := None;
     GC_ID := None; GC_NM_AB_EN := None; GC_NM_AB_FR := None |}.

Definition sample_fields : json :=
  JArr [JObj [("id", JStr "GC_ID")];
        JObj [("id", JStr "ISO_ALPHA_2_CD")];
        JObj [("id", JStr "GC_NM_AB_EN")];
        JObj [("id", JStr "GC_NM_AB_FR")]].

Definition sample_row (id iso en fr : string) : json :=
  JArr [JStr id; JStr iso; JStr en; JStr fr].

Definition sample_body : json :=
  JObj [("fields", sample_fields);
        ("records", JArr [sample_row "1000124" "CA" "Canada" "Canada";
                          sample_row "1000110" "FJ" "Fiji" "Fidji";
                          sample_row "1000826" "GB" "United Kingdom" "Royaume-Uni"])].

Definition sample_reply : http_reply := Response 200 (Ok sample_body).

(** A reply whose second record is not a row: the loop raises on it after it
    has merged the first. *)
Definition sample_broken_reply : http_reply :=
  Response 200
    (Ok (JObj [("fields", sample_fields);
               ("records", JArr [sample_row "1000124" "CA" "Canada" "Canada";
                                 JInt 5;
                                 sample_row "1000826" "GB" "United Kingdom" "Royaume-Uni"])])).

(** A reply whose field list does not name the ISO column, with one row of
    twenty cells laid out as lines 109-112 assume. *)
Definition sample_unnamed_row : json :=
  JArr ([JStr "1000124"; JNull; JNull; JNull; JStr "Canada"; JStr "Canada"]
        ++ repeat JNull 13 ++ [JStr "CA"])%list.

Definition sample_unnamed_reply : http_reply :=
  Response 200
    (Ok (JObj [("fields", JArr [JObj [("id", JStr "_id")];
                                JObj [("id", JStr "GC_ID")];
                                JObj [("type", JStr "text")]]);
               ("records", JArr [sample_unnamed_row])])).

(** A record as the sort sees it, for a country code. *)
Definition sample_entry (cc : string) : RegionFormatRecord :=
  {| country_code := cc; max_length := 10;
     example_format := build_example_format cc 10;
     ISO := None; total_max_digits := None; regex := None;
     GC_ID := None; GC_NM_AB_EN := None; GC_NM_AB_FR := None |}.

(** ** Vocabulary of the properties *)

(** The number of occurrences of a character in a string. *)
Fixpoint count_char (c : ascii) (s : string) : nat :=
  match s with
  | EmptyString => O
  | String c' s' => ((if Ascii.eqb c c' then 1 else 0) + count_char c s')%nat
  end.

(** A run of [n] characters X. *)
Definition x_run (n : Z) : string :=
  string_of_list_ascii (repeat "X"%char (Z.to_nat n)).

(** The possible-length list of a region when its metadata, its general
    description and the list are present and the list is not empty. *)
Definition usable_lengths
  (metadata_for_region : string -> result (option phonenumbers.PhoneMetadata))
  (region : string) : option (list Z) :=
  match metadata_for_region region with
  | Ok (Some metadata) =>
      match phonenumbers.general_desc metadata with
      | Some desc =>
          match phonenumbers.possible_length desc with
          | [] => None
          | lens => Some lens
          end
      | None => None
      end
  | _ => None
  end.

(** The order of the written file: by the integer value of the country code,
    and by ISO key inside one country code. *)
Definition entry_before (a b : entry) : Prop :=
  exists x y,
    py_int (country_code (snd a)) = Ok x /\
    py_int (country_code (snd b)) = Ok y /\
    (x < y \/
     (country_code (snd a) = country_code (snd b) /\
      String.ltb (fst a) (fst b) = true)).

(** The six fields every record is given by lines 40-44 and 62-70, as the
    keys present in the inner dict. *)
Definition has_base_fields (r : RegionFormatRecord) : Prop :=
  ISO r <> None /\ total_max_digits r <> None /\ regex r <> None.

Definition carries_gc (r : RegionFormatRecord) : Prop :=
  GC_ID r <> None /\ GC_NM_AB_EN r <> None /\ GC_NM_AB_FR r <> None.

Definition lacks_gc (r : RegionFormatRecord) : Prop :=
  GC_ID r = None /\ GC_NM_AB_EN r = None /\ GC_NM_AB_FR r = None.

Definition fallback_columns : columns :=
  {| col_iso := 19; col_id := 0; col_en := 4; col_fr := 5 |}.

(** The columns and the fetched records with which the merge loop is entered,
    when the reply gets that far. *)
Definition merge_input (reply : http_reply) : option (columns * list json) :=
  match fetch reply with
  | Ok gc_data =>
      match locate_columns gc_data with
      | Ok (ix, records) =>
          match all_indices ix, iterate records with
          | Some c, Ok items => Some (c, items)
          | _, _ => None
          end
      | Raise _ => None
      end
  | Raise _ => None
  end.

(** A fetched record whose length covers the four columns and whose ISO
    column holds the non-empty string [k]. *)
Definition row_for (c : columns) (record : json) (k : string) : Prop :=
  exists n,
    py_len record = Ok n /\ (max_index c < n)%nat /\
    getitem record (col_iso c) = Ok (JStr k) /\ k <> "".

(** The loop over [items], started on table [d], gets to [record] without
    raising on an earlier one. *)
Definition reached (c : columns) (items : list json) (d : table) (record : json)
  : Prop :=
  exists before after,
    items = (before ++ record :: after)%list /\
    snd (for_each (merge_record c) before d) = Ok tt.

(** The three GC fields of [r] are the cells of [record]. *)
Definition gc_from (c : columns) (record : json) (r : RegionFormatRecord) : Prop :=
  exists v1 v2 v3,
    getitem record (col_id c) = Ok v1 /\
    getitem record (col_en c) = Ok v2 /\
    getitem record (col_fr c) = Ok v3 /\
    GC_ID r = Some v1 /\ GC_NM_AB_EN r = Some v2 /\ GC_NM_AB_FR r = Some v3.

(** What lines 20-44 store for a region. *)
Definition harvested_shape
  (metadata_for_region : string -> result (option phonenumbers.PhoneMetadata))
  (kv : entry) : Prop :=
  exists metadata desc l ls,
    metadata_for_region (fst kv) = Ok (Some metadata) /\
    phonenumbers.general_desc metadata = Some desc /\
    phonenumbers.possible_length desc = l :: ls /\
    country_code (snd kv) = str_int (phonenumbers.country_code metadata) /\
    max_length (snd kv) = py_max l ls /\
    example_format (snd kv)
      = build_example_format (country_code (snd kv)) (max_length (snd kv)) /\
    ISO (snd kv) = None /\ total_max_digits (snd kv) = None /\
    regex (snd kv) = None /\ lacks_gc (snd kv).

(** What lines 62-70 leave in a record stored under key [fst kv]. *)
Definition derived_shape (kv : entry) : Prop :=
  (exists z, country_code (snd kv) = str_int z) /\
  ISO (snd kv) = Some (fst kv) /\
  total_max_digits (snd kv)
    = Some (len_str (country_code (snd kv)) + max_length (snd kv)) /\
  regex (snd kv) = Some (build_regex (country_code (snd kv)) (max_length (snd kv))).

(** The record [r] with its three GC fields set. *)
Definition with_gc (v1 v2 v3 : json) (r : RegionFormatRecord) : RegionFormatRecord :=
  set_GC_NM_AB_FR v3 (set_GC_NM_AB_EN v2 (set_GC_ID v1 r)).

(** ** Vocabulary of the further properties *)

(** Whether the harvester stores a record for the region. *)
Definition usable
  (metadata_for_region : string -> result (option phonenumbers.PhoneMetadata))
  (region : string) : bool :=
  match usable_lengths metadata_for_region region with
  | Some _ => true
  | None => false
  end.

(** Whether [field.get('id')] is the string [name]. *)
Definition field_named (name : string) (field : json) : bool :=
  match method_get field "id" JNull with
  | Ok id => eq_str id name
  | Raise _ => false
  end.

(** [o] is the position of the last field named [name], or [None] when no
    field has the name. *)
Definition located (name : string) (fields : list json) (o : option nat) : Prop :=
  match o with
  | Some j =>
      (exists field, nth_error fields j = Some field /\ field_named name field = true) /\
      (forall j' field,
          (j < j')%nat -> nth_error fields j' = Some field ->
          field_named name field = false)
  | None => forall field, In field fields -> field_named name field = false
  end.

Definition is_object (v : json) : Prop := exists members, v = JObj members.

(** Two records with the same six base fields. *)
Definition same_base (r r' : RegionFormatRecord) : Prop :=
  country_code r = country_code r' /\ max_length r = max_length r' /\
  example_format r = example_format r' /\ ISO r = ISO r' /\
  total_max_digits r = total_max_digits r' /\ regex r = regex r'.

(** Two tables that hold the same record under every key. *)
Definition same_lookups (d d' : table) : Prop :=
  forall k, dict_get k d = dict_get k d'.

(** A computation that cannot tell such tables apart. *)
Definition respects_lookups {A : Type} (m : M A) : Prop :=
  forall d d',
    same_lookups d d' ->
    snd (m d) = snd (m d') /\ same_lookups (fst (m d)) (fst (m d')).

(** The position of the last field named [name], read off the list. *)
Fixpoint last_named (name : string) (fields : list json) : option nat :=
  match fields with
  | [] => None
  | field :: rest =>
      match last_named name rest with
      | Some j => Some (S j)
      | None => if field_named name field then Some O else None
      end
  end.

(** The relation between an entry before and after the enrichment: same key,
    same base fields, and no GC field lost. *)
Definition enriched_from (a b : entry) : Prop :=
  fst a = fst b /\ same_base (snd a) (snd b) /\
  (GC_ID (snd a) <> None -> GC_ID (snd b) <> None) /\
  (GC_NM_AB_EN (snd a) <> None -> GC_NM_AB_EN (snd b) <> None) /\
  (GC_NM_AB_FR (snd a) <> None -> GC_NM_AB_FR (snd b) <> None).

(** A reply with an error status, one whose body is a list, and one whose
    field list holds a string. *)
Definition sample_error_reply : http_reply := Response 503 (Ok sample_body).

Definition sample_list_reply : http_reply := Response 200 (Ok (JArr [sample_body])).

Definition sample_bad_field_reply : http_reply :=
  Response 200
    (Ok (JObj [("fields", JArr [JObj [("id", JStr "ISO_ALPHA_2_CD")]; JStr "GC_ID"]);
               ("records", JArr [sample_row "1000124" "CA" "Canada" "Canada"])])).

(** A reply that names the ISO column and the two name columns but not the
    GC_ID column. *)
Definition sample_no_id_reply : http_reply :=
  Response 200
    (Ok (JObj [("fields", JArr [JObj [("id", JStr "_id")];
                                JObj [("id", JStr "ISO_ALPHA_2_CD")];
                                JObj [("id", JStr "GC_NM_AB_EN")];
                                JObj [("id", JStr "GC_NM_AB_FR")]]);
               ("records", JArr [sample_row "1000124" "CA" "Canada" "Canada"])])).

(** *** The counter of the merge loop (lines 102, 127 and 129)

    [merge_record] leaves out [countries_processed], which the script only
    prints; here is the body of the loop with it. *)

Definition merge_record_counting (c : columns) (record : json)
  (countries_processed : nat) : M nat :=
  n <~ lift (py_len record) ;;
  if (max_index c <? n)%nat then
    iso_code <~ lift (getitem record (col_iso c)) ;;
    if truthy iso_code then
      found <~ membership iso_code ;;
      match found with
      | Some k =>
          v <~ lift (getitem record (col_id c)) ;;
          _ <~ update_record k (set_GC_ID v) ;;
          v <~ lift (getitem record (col_en c)) ;;
          _ <~ update_record k (set_GC_NM_AB_EN v) ;;
          v <~ lift (getitem record (col_fr c)) ;;
          _ <~ update_record k (set_GC_NM_AB_FR v) ;;
          ret (countries_processed + 1)%nat
      | None => ret countries_processed
      end
    else ret countries_processed
  else ret countries_processed.

Fixpoint for_each_counting (c : columns) (records : list json)
  (countries_processed : nat) : M nat :=
  match records with
  | [] => ret countries_processed
  | record :: rest =>
      n <~ merge_record_counting c record countries_processed ;;
      for_each_counting c rest n
  end.

(** Whether a fetched record covers the four columns and holds in its ISO
    column a non-empty string that is a key of [d]. *)
Definition names_a_key (c : columns) (d : table) (record : json) : bool :=
  match py_len record, getitem record (col_iso c) with
  | Ok n, Ok (JStr k) =>
      (max_index c <? n)%nat && negb (String.eqb k "") && dict_mem k d
  | _, _ => false
  end.

(** A reply that does not name the ISO column and whose rows have four
    cells. *)
Definition sample_narrow_reply : http_reply :=
  Response 200
    (Ok (JObj [("fields", JArr [JObj [("id", JStr "_id")]]);
               ("records", JArr [sample_row "1000124" "CA" "Canada" "Canada";
                                 sample_row "1000826" "GB" "United Kingdom"
                                            "Royaume-Uni"])])).

(** * Properties *)

(** ** Dicts *)

Section DictFacts.

Context {V : Type}.
Implicit Types (d : dict V) (k : string) (v : V).

Lemma dict_get_set_eq k v d : dict_get k (dict_set k v d) = Some v.
Proof.
  induction d as [|[k' v'] d IH]; simpl.
  - now rewrite String.eqb_refl.
  - destruct (String.eqb k k') eqn:E; simpl; rewrite E; auto.
Qed.

Lemma dict_get_set_neq k k' v d :
  k <> k' -> dict_get k' (dict_set k v d) = dict_get k' d.
Proof.
  intros Hne. induction d as [|[k0 v0] d IH]; simpl.
  - destruct (String.eqb_spec k' k); congruence.
  - destruct (String.eqb_spec k k0) as [->|]; simpl.
    + destruct (String.eqb_spec k' k0); congruence.
    + now rewrite IH.
Qed.

Lemma dict_get_None k d : dict_get k d = None <-> ~ In k (keys d).
Proof.
  induction d as [|[k' v'] d IH]; simpl.
  - tauto.
  - destruct (String.eqb_spec k k') as [->|Hne].
    + split; [discriminate | intros H; exfalso; apply H; now left].
    + rewrite IH. split; intros H; [intros [?|?]; [congruence | tauto] | tauto].
Qed.

Lemma dict_get_In k v d : dict_get k d = Some v -> In (k, v) d.
Proof.
  induction d as [|[k' v'] d IH]; simpl; [discriminate|].
  destruct (String.eqb_spec k k') as [->|Hne]; intros H.
  - injection H as ->. now left.
  - right. auto.
Qed.

Lemma In_dict_get k v d : NoDup (keys d) -> In (k, v) d -> dict_get k d = Some v.
Proof.
  induction d as [|[k' v'] d IH]; simpl; [tauto|].
  intros Hnd [Heq|Hin]; inversion Hnd as [|? ? Hni Hnd']; subst.
  - injection Heq as -> ->. now rewrite String.eqb_refl.
  - destruct (String.eqb_spec k k') as [->|Hne]; [|auto].
    exfalso. apply Hni. change k' with (fst (k', v)). now apply in_map.
Qed.

Lemma dict_set_present k v d :
  dict_get k d <> None -> keys (dict_set k v d) = keys d.
Proof.
  induction d as [|[k' v'] d IH]; simpl; [congruence|].
  destruct (String.eqb_spec k k') as [->|Hne]; simpl; intros H; [reflexivity|].
  now rewrite IH.
Qed.

Lemma dict_set_fresh k v d :
  dict_get k d = None -> dict_set k v d = (d ++ [(k, v)])%list.
Proof.
  induction d as [|[k' v'] d IH]; simpl; [reflexivity|].
  destruct (String.eqb_spec k k') as [->|Hne]; [discriminate|].
  intros H. now rewrite IH.
Qed.

Lemma keys_dict_set k v d :
  keys (dict_set k v d) = keys d \/ (~ In k (keys d) /\ keys (dict_set k v d) = (keys d ++ [k])%list).
Proof.
  destruct (dict_get k d) eqn:E.
  - left. apply dict_set_present. congruence.
  - right. split; [now apply dict_get_None|].
    rewrite dict_set_fresh by assumption. unfold keys. now rewrite map_app.
Qed.

Lemma NoDup_keys_dict_set k v d : NoDup (keys d) -> NoDup (keys (dict_set k v d)).
Proof.
  intros Hnd. destruct (keys_dict_set k v d) as [->|[Hni ->]]; [assumption|].
  apply NoDup_app; [assumption | repeat constructor; simpl; tauto |].
  intros x Hx [<-|[]]. contradiction.
Qed.

Lemma Forall_dict_set (P : string * V -> Prop) k v d :
  Forall P d -> (forall k', k' = k -> P (k', v)) -> Forall P (dict_set k v d).
Proof.
  intros Hd Hv. induction Hd as [|[k' v'] d Hx Hd IH]; simpl.
  - constructor; auto.
  - destruct (String.eqb_spec k k') as [->|Hne]; constructor; auto.
Qed.

Lemma dict_mem_true k d : dict_mem k d = true <-> dict_get k d <> None.
Proof. unfold dict_mem. destruct (dict_get k d); split; congruence. Qed.

End DictFacts.

(** ** Strings *)

Lemma append_assoc (a b c : string) : (a ++ b) ++ c = a ++ (b ++ c).
Proof. induction a as [|x a IH]; simpl; [reflexivity | now rewrite IH]. Qed.

Lemma count_char_append c (a b : string) :
  count_char c (a ++ b) = (count_char c a + count_char c b)%nat.
Proof. induction a as [|x a IH]; simpl; [reflexivity | rewrite IH; lia]. Qed.

Lemma count_X_repeat (n : nat) : count_char "X" (repeat_string "X" n) = n.
Proof. induction n as [|n IH]; simpl; [reflexivity | now rewrite IH]. Qed.

Lemma str_mul_x_run (n : Z) : str_mul "X" n = x_run n.
Proof.
  unfold str_mul, x_run. induction (Z.to_nat n) as [|m IH]; simpl;
    [reflexivity | now rewrite IH].
Qed.

Lemma count_X_uint d : count_char "X" (NilEmpty.string_of_uint d) = O.
Proof. induction d; simpl; auto. Qed.

Lemma count_X_str_int z : count_char "X" (str_int z) = O.
Proof.
  unfold str_int, NilZero.string_of_int, NilZero.string_of_uint.
  destruct (Z.to_int z) as [d|d]; destruct d; simpl; auto using count_X_uint.
Qed.

(** ** The harvester *)

Lemma py_max_spec l ls :
  In (py_max l ls) (l :: ls) /\ Forall (fun x => x <= py_max l ls) (l :: ls).
Proof.
  unfold py_max. revert l. induction ls as [|a ls IH]; intros l; simpl.
  - split; [now left | repeat constructor; lia].
  - destruct (IH (Z.max l a)) as [Hin Hall]. split.
    + destruct Hin as [Heq|Hin]; [|now right; right].
      rewrite <- Heq. destruct (Z.max_spec l a) as [[_ ->]|[_ ->]]; simpl; auto.
    + inversion Hall as [|? ? Hm Hrest]; subst.
      repeat constructor; [lia | lia | assumption].
Qed.

Section HarvesterFacts.

Variable metadata_for_region : string -> result (option phonenumbers.PhoneMetadata).

Let step := harvest_region metadata_for_region.
Let harvest := get_up_to_date_phone_formats metadata_for_region.
Let shape := harvested_shape metadata_for_region.

Lemma harvest_region_shape acc region :
  Forall shape acc -> Forall shape (step acc region).
Proof.
  intros Hacc. subst step. unfold harvest_region.
  destruct (metadata_for_region region) as [[md|]|] eqn:Emd; auto.
  destruct (phonenumbers.general_desc md) as [desc|] eqn:Edesc; auto.
  destruct (phonenumbers.possible_length desc) as [|l ls] eqn:Elen; auto.
  apply Forall_dict_set; [assumption|]. intros k' ->.
  exists md, desc, l, ls. simpl. unfold lacks_gc. simpl. tauto.
Qed.

Lemma harvest_region_NoDup acc region :
  NoDup (keys acc) -> NoDup (keys (step acc region)).
Proof.
  intros Hacc. subst step. unfold harvest_region.
  destruct (metadata_for_region region) as [[md|]|]; auto.
  destruct (phonenumbers.general_desc md) as [desc|]; auto.
  destruct (phonenumbers.possible_length desc) as [|l ls]; auto.
  now apply NoDup_keys_dict_set.
Qed.

Lemma harvest_fold_inv (P : table -> Prop) regions acc :
  (forall a r, P a -> P (step a r)) -> P acc -> P (fold_left step regions acc).
Proof.
  intros Hstep. revert acc. induction regions as [|r rs IH]; simpl; auto.
Qed.

Lemma harvest_shape regions : Forall shape (harvest regions).
Proof.
  apply (harvest_fold_inv (Forall shape)); [apply harvest_region_shape | constructor].
Qed.

Lemma harvest_NoDup regions : NoDup (keys (harvest regions)).
Proof.
  apply (harvest_fold_inv (fun d => NoDup (keys d)));
    [apply harvest_region_NoDup | constructor].
Qed.

Lemma harvest_region_other acc region k :
  k <> region -> dict_get k (step acc region) = dict_get k acc.
Proof.
  intros Hne. subst step. unfold harvest_region.
  destruct (metadata_for_region region) as [[md|]|]; auto.
  destruct (phonenumbers.general_desc md) as [desc|]; auto.
  destruct (phonenumbers.possible_length desc) as [|l ls]; auto.
  apply dict_get_set_neq. congruence.
Qed.

Lemma harvest_region_unusable acc region :
  usable_lengths metadata_for_region region = None -> step acc region = acc.
Proof.
  subst step. unfold usable_lengths, harvest_region.
  destruct (metadata_for_region region) as [[md|]|]; auto.
  destruct (phonenumbers.general_desc md) as [desc|]; auto.
  destruct (phonenumbers.possible_length desc) as [|l ls]; auto. discriminate.
Qed.

Lemma harvest_region_usable acc region lens :
  usable_lengths metadata_for_region region = Some lens ->
  dict_get region (step acc region) = dict_get region (step [] region) /\
  dict_get region (step [] region) <> None.
Proof.
  subst step. unfold usable_lengths, harvest_region.
  destruct (metadata_for_region region) as [[md|]|]; try discriminate.
  destruct (phonenumbers.general_desc md) as [desc|]; try discriminate.
  destruct (phonenumbers.possible_length desc) as [|l ls]; try discriminate.
  intros _. rewrite !dict_get_set_eq. split; congruence.
Qed.

Lemma harvest_fold_lookup regions acc k :
  dict_get k (fold_left step regions acc) = dict_get k acc \/
  (usable_lengths metadata_for_region k <> None /\
   dict_get k (fold_left step regions acc) = dict_get k (step [] k)).
Proof.
  revert acc. induction regions as [|r rs IH]; intros acc; simpl; [now left|].
  destruct (IH (step acc r)) as [Heq|Hset]; [|now right].
  rewrite Heq. destruct (string_dec k r) as [->|Hne].
  - destruct (usable_lengths metadata_for_region r) as [lens|] eqn:Eu.
    + right. split; [congruence|].
      now destruct (harvest_region_usable acc r lens Eu).
    + left. now rewrite harvest_region_unusable.
  - left. now apply harvest_region_other.
Qed.

Lemma harvest_lookup_usable regions acc k lens :
  In k regions ->
  usable_lengths metadata_for_region k = Some lens ->
  dict_get k (fold_left step regions acc) <> None.
Proof.
  intros Hin Hu. revert acc. induction regions as [|r rs IH]; intros acc;
    simpl in *; [contradiction|].
  destruct (string_dec r k) as [->|Hne].
  - destruct (harvest_region_usable acc k lens Hu) as [E1 E2].
    destruct (harvest_fold_lookup rs (step acc k) k) as [-> | [_ ->]]; congruence.
  - destruct Hin as [?|Hin]; [contradiction|]. now apply IH.
Qed.

Lemma harvest_lookup_unusable regions k :
  usable_lengths metadata_for_region k = None -> dict_get k (harvest regions) = None.
Proof.
  intros Hu. pose proof (harvest_fold_lookup regions [] k) as H.
  subst harvest step. unfold get_up_to_date_phone_formats.
  destruct H as [-> | [Hc _]]; [reflexivity | contradiction].
Qed.

End HarvesterFacts.

(** ** [int] undoes [str] *)

Lemma parse_digits_digit acc b c s d :
  digit_value c = Some d ->
  parse_digits acc b (String c s) = parse_digits (10 * acc + d) true s.
Proof. intros H. simpl. now rewrite H. Qed.

Lemma parse_digits_acc d acc :
  parse_digits (Z.pos acc) true (NilEmpty.string_of_uint d)
  = Ok (Z.pos (Pos.of_uint_acc d acc)).
Proof.
  revert acc.
  induction d; intros acc; cbn [NilEmpty.string_of_uint Pos.of_uint_acc];
    [reflexivity | ..];
    (erewrite parse_digits_digit by (vm_compute; reflexivity));
    rewrite <- IHd; f_equal; lia.
Qed.

Lemma parse_digits_zero d :
  parse_digits 0 true (NilEmpty.string_of_uint d) = Ok (Z.of_N (Pos.of_uint d)).
Proof.
  induction d; cbn [NilEmpty.string_of_uint Pos.of_uint];
    [reflexivity | ..];
    (erewrite parse_digits_digit by (vm_compute; reflexivity));
    [exact IHd | ..]; apply (parse_digits_acc d).
Qed.

Lemma parse_digits_uint d :
  d <> Decimal.Nil ->
  parse_digits 0 false (NilEmpty.string_of_uint d) = Ok (Z.of_uint d).
Proof.
  intros Hd. unfold Z.of_uint.
  destruct d; [congruence | ..]; cbn [NilEmpty.string_of_uint Pos.of_uint];
    (erewrite parse_digits_digit by (vm_compute; reflexivity));
    [apply parse_digits_zero | ..]; apply (parse_digits_acc d).
Qed.

Lemma uint_first_char d :
  d <> Decimal.Nil ->
  exists c t,
    NilEmpty.string_of_uint d = String c t /\
    Ascii.eqb c "+" = false /\ Ascii.eqb c "-" = false.
Proof.
  intros Hd. destruct d; [congruence | ..]; cbn [NilEmpty.string_of_uint];
    eexists; eexists; (split; [reflexivity | split; reflexivity]).
Qed.

Lemma uint_no_space d :
  forallb (fun c => negb (is_space c))
          (list_ascii_of_string (NilEmpty.string_of_uint d)) = true.
Proof. induction d; simpl; auto. Qed.

Lemma rstrip_id s :
  forallb (fun c => negb (is_space c)) (list_ascii_of_string s) = true ->
  rstrip s = s.
Proof.
  induction s as [|c s IH]; [reflexivity|].
  cbn [list_ascii_of_string forallb rstrip]. intros H.
  apply andb_prop in H as [Hc Hs]. rewrite (IH Hs).
  destruct s; [|reflexivity].
  apply negb_true_iff in Hc. now rewrite Hc.
Qed.

Lemma strip_id s :
  forallb (fun c => negb (is_space c)) (list_ascii_of_string s) = true ->
  strip s = s.
Proof.
  intros H. unfold strip. rewrite (rstrip_id s H).
  destruct s as [|c s]; [reflexivity|].
  cbn [list_ascii_of_string forallb] in H. apply andb_prop in H as [Hc _].
  apply negb_true_iff in Hc. cbn [lstrip]. now rewrite Hc.
Qed.

Lemma py_int_uint d :
  d <> Decimal.Nil -> py_int (NilEmpty.string_of_uint d) = Ok (Z.of_uint d).
Proof.
  intros Hd. unfold py_int. rewrite (strip_id _ (uint_no_space d)).
  destruct (uint_first_char d Hd) as (c & t & E & Hplus & Hminus).
  rewrite E, Hplus, Hminus, <- E. now apply parse_digits_uint.
Qed.

Lemma py_int_neg_uint d :
  d <> Decimal.Nil ->
  py_int (String "-" (NilEmpty.string_of_uint d)) = Ok (- Z.of_uint d).
Proof.
  intros Hd. unfold py_int. rewrite strip_id.
  - cbn [Ascii.eqb]. change (Ascii.eqb "-" "+") with false.
    change (Ascii.eqb "-" "-") with true. cbv iota.
    now rewrite parse_digits_uint.
  - cbn [list_ascii_of_string forallb]. now rewrite uint_no_space.
Qed.

Lemma py_int_str_int z : py_int (str_int z) = Ok z.
Proof.
  rewrite <- (DecimalZ.of_to z) at 2. unfold str_int.
  destruct z as [|p|p]; cbn [Z.to_int]; [reflexivity | ..];
    pose proof (Unsigned.to_uint_nonnil p) as Hd;
    cbn [NilZero.string_of_int Z.of_int]; unfold NilZero.string_of_uint;
    destruct (Pos.to_uint p) eqn:E; try congruence; rewrite <- E in *;
    auto using py_int_uint, py_int_neg_uint.
Qed.

Lemma str_int_inj a b : str_int a = str_int b -> a = b.
Proof.
  intros H. pose proof (py_int_str_int a) as Ha. rewrite H, py_int_str_int in Ha.
  congruence.
Qed.

(** ** The order on strings *)

Lemma leb_iff a b : String.leb a b = true <-> a = b \/ String_as_OT.lt a b.
Proof.
  unfold String.leb. destruct (String.compare a b) eqn:E.
  - apply String_as_OT.cmp_eq in E. tauto.
  - apply String_as_OT.cmp_lt in E. tauto.
  - split; [discriminate|]. intros [->|Hlt].
    + assert (H : String_as_OT.cmp b b = Eq) by now apply String_as_OT.cmp_eq.
      unfold String_as_OT.cmp in H. congruence.
    + apply String_as_OT.cmp_lt in Hlt. unfold String_as_OT.cmp in Hlt. congruence.
Qed.

Lemma ltb_iff a b : String.ltb a b = true <-> String_as_OT.lt a b.
Proof.
  unfold String.ltb. rewrite <- String_as_OT.cmp_lt. unfold String_as_OT.cmp.
  destruct (String.compare a b); split; congruence.
Qed.

Lemma leb_trans a b c :
  String.leb a b = true -> String.leb b c = true -> String.leb a c = true.
Proof.
  rewrite !leb_iff. intros [->|Hab] [->|Hbc]; auto.
  right. eapply String_as_OT.lt_trans; eassumption.
Qed.

Lemma leb_neq_ltb a b : String.leb a b = true -> a <> b -> String.ltb a b = true.
Proof. rewrite leb_iff, ltb_iff. tauto. Qed.

(** ** [sorted] *)

Section StableSort.

Context {A : Type} (le : A -> A -> bool).
Hypothesis le_total : forall a b, le a b = true \/ le b a = true.
Hypothesis le_trans : forall a b c, le a b = true -> le b c = true -> le a c = true.

Lemma insert_by_perm x l : Permutation (insert_by le x l) (x :: l).
Proof.
  induction l as [|y l IH]; simpl; [reflexivity|].
  destruct (le x y); [reflexivity|].
  rewrite IH. apply perm_swap.
Qed.

Lemma sorted_by_perm l : Permutation (sorted_by le l) l.
Proof.
  induction l as [|x l IH]; simpl; [reflexivity|].
  rewrite insert_by_perm. now constructor.
Qed.

Lemma insert_by_sorted x l :
  StronglySorted (fun a b => le a b = true) l ->
  StronglySorted (fun a b => le a b = true) (insert_by le x l).
Proof.
  induction 1 as [|y l Hs IH Hy]; simpl; [repeat constructor|].
  destruct (le x y) eqn:E.
  - constructor; [now constructor|]. constructor; [assumption|].
    rewrite Forall_forall in *. eauto.
  - constructor; [assumption|].
    rewrite Forall_forall in *. intros z Hz.
    apply (Permutation_in _ (insert_by_perm x l)) in Hz. destruct Hz as [<-|Hz]; auto.
    destruct (le_total x y); congruence.
Qed.

Lemma sorted_by_sorted l : StronglySorted (fun a b => le a b = true) (sorted_by le l).
Proof.
  induction l as [|x l IH]; simpl; [constructor | now apply insert_by_sorted].
Qed.

End StableSort.

Lemma StronglySorted_refine {A : Type} (R R' : A -> A -> Prop) l :
  StronglySorted R l ->
  NoDup l ->
  (forall a b, In a l -> In b l -> a <> b -> R a b -> R' a b) ->
  StronglySorted R' l.
Proof.
  induction 1 as [|x l Hs IH Hx]; intros Hnd Himp; [constructor|].
  inversion Hnd as [|? ? Hni Hnd']; subst. constructor.
  - apply IH; [assumption|]. intros a b Ha Hb. apply Himp; now right.
  - rewrite Forall_forall in *. intros y Hy.
    apply Himp; [now left | now right | congruence | auto].
Qed.

Lemma StronglySorted_app {A : Type} (R : A -> A -> Prop) l1 l2 :
  StronglySorted R l1 -> StronglySorted R l2 ->
  (forall a b, In a l1 -> In b l2 -> R a b) ->
  StronglySorted R (l1 ++ l2).
Proof.
  induction 1 as [|x l Hs IH Hx]; intros H2 Hcross; simpl; [assumption|].
  constructor.
  - apply IH; [assumption|]. intros a b Ha. apply Hcross. now right.
  - apply Forall_app. split; [assumption|].
    rewrite Forall_forall. intros b Hb. apply Hcross; [now left | assumption].
Qed.

Lemma StronglySorted_flat_map {K A : Type} (Rk : K -> K -> Prop) (R : A -> A -> Prop)
      (h : K -> list A) l :
  StronglySorted Rk l ->
  (forall k, In k l -> StronglySorted R (h k)) ->
  (forall k1 k2 a b, Rk k1 k2 -> In a (h k1) -> In b (h k2) -> R a b) ->
  StronglySorted R (flat_map h l).
Proof.
  induction 1 as [|k l Hs IH Hk]; intros Hin Hcross; simpl; [constructor|].
  apply StronglySorted_app.
  - apply Hin. now left.
  - apply IH; [|assumption]. intros k' Hk'. apply Hin. now right.
  - intros a b Ha Hb. apply in_flat_map in Hb as (k' & Hk' & Hb).
    rewrite Forall_forall in Hk. eauto.
Qed.

Lemma fold_left_flat_map {K A B : Type} (g : B -> A -> B) (h : K -> list A) l acc :
  fold_left (fun acc k => fold_left g (h k) acc) l acc = fold_left g (flat_map h l) acc.
Proof.
  revert acc. induction l as [|k l IH]; intros acc; simpl; [reflexivity|].
  now rewrite fold_left_app, IH.
Qed.

(** ** Grouping by country code *)

Lemma dict_set_twice {V : Type} k (v v' : V) d :
  dict_set k v (dict_set k v' d) = dict_set k v d.
Proof.
  induction d as [|[k0 v0] d IH]; simpl.
  - now rewrite String.eqb_refl.
  - destruct (String.eqb k k0) eqn:E; simpl; rewrite E; [reflexivity | now rewrite IH].
Qed.

Lemma group_step_set groups item :
  group_step groups item
  = dict_set (country_code (snd item))
             (group_of groups (country_code (snd item)) ++ [item])%list groups.
Proof.
  unfold group_step, group_of, dict_mem.
  destruct (dict_get (country_code (snd item)) groups) as [g|] eqn:E.
  - now rewrite E.
  - rewrite dict_get_set_eq. apply dict_set_twice.
Qed.

Lemma group_of_In groups cc e :
  In e (group_of groups cc) -> exists g, In (cc, g) groups /\ In e g.
Proof.
  unfold group_of. destruct (dict_get cc groups) as [g|] eqn:E; [|contradiction].
  intros He. exists g. split; [now apply dict_get_In | assumption].
Qed.

Lemma concat_group_step groups cc (item : entry) :
  Permutation
    (List.concat (map snd (dict_set cc (group_of groups cc ++ [item])%list groups)))
    (item :: List.concat (map snd groups)).
Proof.
  induction groups as [|[k g] groups IH].
  - simpl. reflexivity.
  - unfold group_of in *. simpl. destruct (String.eqb cc k) eqn:E; simpl.
    + rewrite <- List.app_assoc. simpl. symmetry. apply Permutation_middle.
    + rewrite IH. symmetry. apply Permutation_middle.
Qed.

(** What grouping keeps true of [country_code_groups]. *)
Lemma group_by_country_code_spec (P : string -> Prop) d :
  Forall (fun e => P (country_code (snd e))) d ->
  let groups := group_by_country_code d in
  NoDup (keys groups) /\
  Forall (fun kg => P (fst kg) /\
                    Forall (fun e => country_code (snd e) = fst kg) (snd kg)) groups /\
  Permutation (List.concat (map snd groups)) d.
Proof.
  intros Hd. unfold group_by_country_code.
  assert (Hgen : forall l acc done,
             Forall (fun e => P (country_code (snd e))) l ->
             NoDup (keys acc) /\
             Forall (fun kg => P (fst kg) /\
                               Forall (fun e => country_code (snd e) = fst kg) (snd kg))
                    acc /\
             Permutation (List.concat (map snd acc)) done ->
             NoDup (keys (fold_left group_step l acc)) /\
             Forall (fun kg => P (fst kg) /\
                               Forall (fun e => country_code (snd e) = fst kg) (snd kg))
                    (fold_left group_step l acc) /\
             Permutation (List.concat (map snd (fold_left group_step l acc)))
                         (done ++ l)).
  { induction l as [|item l IH]; intros acc done Hl (Hnd & Hall & Hperm); simpl.
    - rewrite List.app_nil_r. auto.
    - inversion Hl as [|? ? Hitem Hl']; subst.
      replace (done ++ item :: l)%list with ((done ++ [item]) ++ l)%list
        by (rewrite <- List.app_assoc; reflexivity).
      apply IH; [assumption|]. rewrite group_step_set. repeat split.
      + now apply NoDup_keys_dict_set.
      + apply Forall_dict_set; [assumption|]. intros k' ->. simpl.
        split; [assumption|]. apply Forall_app. split; [|now repeat constructor].
        rewrite Forall_forall. intros e He.
        apply group_of_In in He as (g & Hg & He).
        rewrite Forall_forall in Hall. destruct (Hall _ Hg) as [_ Hgall].
        rewrite Forall_forall in Hgall. now apply Hgall.
      + rewrite concat_group_step, Hperm. apply Permutation_cons_append. }
  apply (Hgen d [] []); [assumption|]. simpl. repeat split; constructor.
Qed.

Lemma map_group_of groups :
  NoDup (keys groups) -> map (group_of groups) (keys groups) = map snd groups.
Proof.
  intros Hnd. unfold keys. rewrite map_map. apply map_ext_in.
  intros [k g] Hin. unfold group_of. simpl. now rewrite (In_dict_get k g groups Hnd Hin).
Qed.

(** ** The order of the country codes *)

Lemma mapM_decorate ks :
  Forall (fun k => exists z, py_int k = Ok z) ks ->
  exists decorated,
    mapM (fun k => z <- py_int k ;; Ok (z, k)) ks = Ok decorated /\
    map snd decorated = ks /\
    Forall (fun p => py_int (snd p) = Ok (fst p)) decorated.
Proof.
  induction 1 as [|k ks [z Hz] Hks (dec & Hm & Hsnd & Hall)]; simpl.
  - exists []. repeat split; constructor.
  - exists ((z, k) :: dec). rewrite Hz, Hm. simpl. rewrite Hsnd.
    repeat split. now constructor.
Qed.

Lemma sorted_by_int_spec ks :
  NoDup ks ->
  Forall (fun k => exists z, k = str_int z) ks ->
  exists order,
    sorted_by_int ks = Ok order /\
    Permutation order ks /\
    StronglySorted
      (fun a b => exists x y, py_int a = Ok x /\ py_int b = Ok y /\ x < y) order.
Proof.
  intros Hnd Hcanon.
  destruct (mapM_decorate ks) as (dec & Hm & Hsnd & Hall).
  { eapply Forall_impl; [|exact Hcanon]. intros k [z ->]. exists z.
    apply py_int_str_int. }
  unfold sorted_by_int. rewrite Hm. simpl.
  set (le := fun a b : Z * string => fst a <=? fst b).
  assert (Hperm : Permutation (sorted_by le dec) dec) by apply sorted_by_perm.
  assert (Hperm' : Permutation (map snd (sorted_by le dec)) ks).
  { rewrite <- Hsnd. now apply Permutation_map. }
  exists (map snd (sorted_by le dec)). repeat split; [assumption|].
  assert (Hsorted : StronglySorted (fun a b => le a b = true) (sorted_by le dec)).
  { apply sorted_by_sorted; subst le; simpl.
    - intros a b. rewrite !Z.leb_le. lia.
    - intros a b c. rewrite !Z.leb_le. lia. }
  assert (Hall' : Forall (fun p => py_int (snd p) = Ok (fst p)) (sorted_by le dec)).
  { rewrite Forall_forall in *. intros p Hp. apply Hall.
    now apply (Permutation_in _ Hperm). }
  assert (Hnd' : NoDup (map snd (sorted_by le dec))).
  { eapply Permutation_NoDup; [symmetry; exact Hperm' | assumption]. }
  assert (Hcanon' : Forall (fun k => exists z, k = str_int z)
                           (map snd (sorted_by le dec))).
  { rewrite Forall_forall in *. intros k Hk. apply Hcanon.
    now apply (Permutation_in _ Hperm'). }
  clear Hperm Hperm' Hm Hsnd Hall Hnd Hcanon.
  induction Hsorted as [|p l Hs IH Hp]; simpl in *; [constructor|].
  inversion Hall' as [|? ? Hpp Hall'']; subst.
  inversion Hnd' as [|? ? Hni Hnd'']; subst.
  inversion Hcanon' as [|? ? Hpc Hcanon'']; subst.
  constructor; [now apply IH|].
  rewrite Forall_forall in *. intros k Hk.
  apply in_map_iff in Hk as (q & <- & Hq).
  exists (fst p), (fst q). repeat split; [assumption | now apply Hall''|].
  specialize (Hp q Hq). subst le. simpl in Hp. apply Z.leb_le in Hp.
  assert (fst p <> fst q); [|lia].
  intros Heq. apply Hni. apply in_map_iff. exists q. split; [|assumption].
  destruct Hpc as [zp Hzp]. destruct (Hcanon'' (snd q)) as [zq Hzq].
  { apply in_map_iff. eauto. }
  pose proof (Hall'' q Hq) as Hq'. rewrite Hzp, py_int_str_int in Hpp.
  rewrite Hzq, py_int_str_int in Hq'. congruence.
Qed.

(** ** Rebuilding the mapping *)

Lemma emit_fresh (l : list entry) out :
  NoDup (keys out ++ keys l) ->
  fold_left (fun out item => dict_set (fst item) (snd item) out) l out
  = (out ++ l)%list.
Proof.
  revert out. induction l as [|[k v] l IH]; intros out Hnd; simpl.
  - now rewrite List.app_nil_r.
  - assert (Hfresh : dict_get k out = None).
    { apply dict_get_None. intros Hin. simpl in Hnd.
      apply NoDup_remove_2 in Hnd. apply Hnd. apply in_or_app. now left. }
    rewrite (dict_set_fresh k v out Hfresh), IH.
    + now rewrite <- List.app_assoc.
    + unfold keys in *. rewrite map_app. simpl. rewrite <- List.app_assoc. exact Hnd.
Qed.

Lemma sorted_by_iso_sorted (g : list entry) cc z :
  NoDup (keys g) ->
  Forall (fun e => country_code (snd e) = cc) g ->
  py_int cc = Ok z ->
  StronglySorted entry_before (sorted_by_iso g).
Proof.
  intros Hnd Hcc Hz. unfold sorted_by_iso.
  set (le := fun a b : entry => String.leb (fst a) (fst b)).
  change (StronglySorted entry_before (sorted_by le g)).
  assert (Hperm : Permutation (sorted_by le g) g) by apply sorted_by_perm.
  assert (Hsorted : StronglySorted (fun a b => le a b = true) (sorted_by le g)).
  { apply sorted_by_sorted; subst le; simpl.
    - intros a b. apply String.leb_total.
    - intros a b c. apply leb_trans. }
  assert (Hnd' : NoDup (keys (sorted_by le g))).
  { eapply Permutation_NoDup; [|exact Hnd]. symmetry. now apply Permutation_map. }
  assert (Hcc' : Forall (fun e => country_code (snd e) = cc) (sorted_by le g)).
  { rewrite Forall_forall in *. intros e He. apply Hcc.
    now apply (Permutation_in _ Hperm). }
  clear Hperm Hnd Hcc.
  induction Hsorted as [|p l Hs IH Hp]; simpl in *; [constructor|].
  inversion Hnd' as [|? ? Hni Hnd'']; subst.
  inversion Hcc' as [|? ? Hpc Hcc'']; subst.
  constructor; [now apply IH|].
  rewrite Forall_forall in *. intros q Hq.
  exists z, z. rewrite (Hcc'' q Hq). repeat split; try assumption.
  right. split; [reflexivity|]. apply leb_neq_ltb; [now apply Hp|].
  intros Heq. apply Hni. rewrite Heq. now apply in_map.
Qed.

(** The sort on a table with unique keys whose country codes were written by
    [str]: it returns, and what it returns is the same entries in order. *)
Lemma sort_table_spec d :
  NoDup (keys d) ->
  Forall (fun e => exists z, country_code (snd e) = str_int z) d ->
  exists out,
    sort_table d = Ok out /\
    Permutation out d /\
    StronglySorted entry_before out.
Proof.
  intros Hnd Hcanon. unfold sort_table.
  destruct (group_by_country_code_spec (fun cc => exists z, cc = str_int z) d Hcanon)
    as (Hgnd & Hgall & Hgperm).
  set (groups := group_by_country_code d) in *.
  destruct (sorted_by_int_spec (keys groups) Hgnd) as (order & Ho & Hoperm & Hosorted).
  { unfold keys. rewrite Forall_map. eapply Forall_impl; [|exact Hgall].
    intros kg [H _]. exact H. }
  rewrite Ho. simpl. unfold emit_group.
  rewrite (fold_left_flat_map
             (fun (out : table) (item : entry) => dict_set (fst item) (snd item) out)
             (fun cc => sorted_by_iso (group_of groups cc))).
  set (flat := flat_map (fun cc => sorted_by_iso (group_of groups cc)) order).
  assert (Hflat : Permutation flat d).
  { subst flat. rewrite flat_map_concat_map.
    transitivity (List.concat (map (group_of groups) order)).
    - rewrite <- !flat_map_concat_map. clear. induction order as [|cc order IH]; simpl.
      + reflexivity.
      + apply Permutation_app; [apply sorted_by_perm | exact IH].
    - rewrite <- Hgperm, <- (map_group_of groups Hgnd), <- !flat_map_concat_map.
      now apply Permutation_flat_map. }
  assert (Hflatnd : NoDup (keys flat)).
  { eapply Permutation_NoDup; [|exact Hnd]. symmetry. now apply Permutation_map. }
  rewrite emit_fresh by exact Hflatnd. simpl.
  exists flat. repeat split; [assumption|].
  subst flat. rewrite Forall_forall in Hgall.
  eapply StronglySorted_flat_map; [exact Hosorted | |].
  - intros cc Hcc. unfold group_of.
    destruct (dict_get cc groups) as [g|] eqn:Eg; [|constructor].
    pose proof (dict_get_In _ _ _ Eg) as Hin.
    destruct (Hgall _ Hin) as [[z Hz] Hg]. simpl in Hz, Hg.
    apply (sorted_by_iso_sorted g cc z); [| assumption | subst cc; apply py_int_str_int].
    assert (Hsub : forall e, In e g -> In e d).
    { intros e He. apply (Permutation_in _ Hgperm). apply in_concat.
      exists g. split; [|assumption]. change g with (snd (cc, g)). now apply in_map. }
    clear - Hnd Hsub Hgperm Hin Hgnd.
    unfold keys in *.
    assert (Hcnd : NoDup (map fst (List.concat (map snd groups)))).
    { eapply Permutation_NoDup; [|exact Hnd]. symmetry. now apply Permutation_map. }
    apply in_split in Hin as (g1 & g2 & Heq). rewrite Heq, map_app, concat_app in Hcnd.
    simpl in Hcnd. rewrite !map_app in Hcnd.
    apply NoDup_app_remove_l in Hcnd. now apply NoDup_app_remove_r in Hcnd.
  - intros k1 k2 a b (x & y & Hx & Hy & Hlt) Ha Hb.
    apply (Permutation_in _ (sorted_by_perm _ _)) in Ha, Hb.
    apply group_of_In in Ha as (ga & Hga & Ha), Hb as (gb & Hgb & Hb).
    destruct (Hgall _ Hga) as [_ Hca]. destruct (Hgall _ Hgb) as [_ Hcb].
    rewrite Forall_forall in Hca, Hcb. simpl in Hca, Hcb.
    exists x, y. rewrite (Hca a Ha), (Hcb b Hb). auto.
Qed.

(** ** The derived fields *)

Lemma keys_add_fields d : keys (add_fields d) = keys d.
Proof. unfold add_fields, keys. rewrite map_map. reflexivity. Qed.

Lemma add_fields_shape metadata_for_region regions :
  let d := add_fields (get_up_to_date_phone_formats metadata_for_region regions) in
  Forall derived_shape d /\ Forall (fun kv => lacks_gc (snd kv)) d.
Proof.
  pose proof (harvest_shape metadata_for_region regions) as Hall.
  unfold add_fields. rewrite !Forall_map. split;
    (eapply Forall_impl; [|exact Hall]); intros [k r];
    intros (md & desc & l & ls & _ & _ & _ & Hcc & _ & _ & _ & _ & _ & Hgc);
    simpl in *.
  - unfold derived_shape. simpl. repeat split. eauto.
  - exact Hgc.
Qed.

(** ** What the enrichment keeps *)

Lemma bindM_fst {A B : Type} (Inv : table -> Prop) (m : M A) (k : A -> M B) d :
  Inv (fst (m d)) ->
  (forall a d', Inv d' -> Inv (fst (k a d'))) ->
  Inv (fst (bindM m k d)).
Proof.
  intros Hm Hk. unfold bindM. destruct (m d) as [d' [a|e]]; simpl in *; auto.
Qed.

Section EnrichmentKeeps.

Variable Inv : table -> Prop.
Hypothesis Inv_update :
  forall k r d,
    Inv d -> dict_get k d = Some r ->
    forall v, Inv (dict_set k (set_GC_ID v r) d) /\
              Inv (dict_set k (set_GC_NM_AB_EN v r) d) /\
              Inv (dict_set k (set_GC_NM_AB_FR v r) d).

Lemma update_record_keeps k d :
  Inv d ->
  forall v, Inv (fst (update_record k (set_GC_ID v) d)) /\
            Inv (fst (update_record k (set_GC_NM_AB_EN v) d)) /\
            Inv (fst (update_record k (set_GC_NM_AB_FR v) d)).
Proof.
  intros Hd v. unfold update_record.
  destruct (dict_get k d) as [r|] eqn:E; simpl; [|tauto].
  apply (Inv_update k r d Hd E v).
Qed.

Lemma merge_record_keeps c record d : Inv d -> Inv (fst (merge_record c record d)).
Proof.
  intros Hd. unfold merge_record.
  apply bindM_fst; [exact Hd|]. clear d Hd. intros n d Hd.
  destruct (max_index c <? n)%nat; [|exact Hd].
  apply bindM_fst; [exact Hd|]. clear d Hd. intros iso_code d Hd.
  destruct (truthy iso_code); [|exact Hd].
  apply bindM_fst; [exact Hd|]. clear d Hd. intros [k|] d Hd; [|exact Hd].
  apply bindM_fst; [exact Hd|]. clear d Hd. intros v1 d Hd.
  apply bindM_fst; [now apply update_record_keeps|]. clear d Hd. intros _ d Hd.
  apply bindM_fst; [exact Hd|]. clear d Hd. intros v2 d Hd.
  apply bindM_fst; [now apply update_record_keeps|]. clear d Hd. intros _ d Hd.
  apply bindM_fst; [exact Hd|]. clear d Hd. intros v3 d Hd.
  now apply update_record_keeps.
Qed.

Lemma for_each_keeps c records d :
  Inv d -> Inv (fst (for_each (merge_record c) records d)).
Proof.
  revert d. induction records as [|record records IH]; intros d Hd; simpl; [exact Hd|].
  apply bindM_fst; [now apply merge_record_keeps|]. intros _ d'. apply IH.
Qed.

Lemma enrichment_keeps reply d : Inv d -> Inv (enrichment reply d).
Proof.
  intros Hd. unfold enrichment, enrich.
  apply bindM_fst; [exact Hd|]. clear d Hd. intros gc_data d Hd.
  apply bindM_fst; [exact Hd|]. clear d Hd. intros located d Hd.
  destruct (all_indices (fst located)) as [c|]; [|exact Hd].
  unfold merge_all. apply bindM_fst; [exact Hd|]. clear d Hd. intros records d Hd.
  now apply for_each_keeps.
Qed.

End EnrichmentKeeps.

Lemma enrichment_keys reply d : keys (enrichment reply d) = keys d.
Proof.
  apply (enrichment_keeps (fun d' => keys d' = keys d)); [|reflexivity].
  intros k r d' Hd' Hget v.
  rewrite !dict_set_present by congruence. auto.
Qed.

Lemma enrichment_Forall (P : entry -> Prop) reply d :
  (forall k r v, P (k, r) ->
                 P (k, set_GC_ID v r) /\ P (k, set_GC_NM_AB_EN v r) /\
                 P (k, set_GC_NM_AB_FR v r)) ->
  Forall P d -> Forall P (enrichment reply d).
Proof.
  intros Hstable. apply enrichment_keeps.
  intros k r d' Hd' Hget v.
  pose proof (dict_get_In _ _ _ Hget) as Hin.
  pose proof (proj1 (Forall_forall _ _) Hd' _ Hin) as HP.
  destruct (Hstable k r v HP) as (H1 & H2 & H3).
  repeat split; (apply Forall_dict_set; [assumption|]); now intros k' ->.
Qed.

Lemma enrichment_derived_shape reply d :
  Forall derived_shape d -> Forall derived_shape (enrichment reply d).
Proof. apply enrichment_Forall. intros k r v H. repeat split; apply H. Qed.

(** ** What the merge loop writes *)

Lemma string_get_in_range s i :
  (i < String.length s)%nat -> exists c, String.get i s = Some c.
Proof.
  revert i. induction s as [|a s IH]; intros i Hi; simpl in *; [lia|].
  destruct i as [|i]; [eauto|]. apply IH. lia.
Qed.

Lemma getitem_in_range record n i :
  py_len record = Ok n -> (i < n)%nat ->
  (forall members, record <> JObj members) ->
  exists v, getitem record i = Ok v.
Proof.
  intros Hlen Hi Hobj. destruct record; simpl in *; try discriminate.
  - injection Hlen as <-. destruct (string_get_in_range s i Hi) as [c ->]. eauto.
  - injection Hlen as <-. apply nth_error_Some in Hi.
    destruct (nth_error items i); [eauto | congruence].
  - exfalso. eapply Hobj. reflexivity.
Qed.

Lemma row_for_functional c record k k' :
  row_for c record k -> row_for c record k' -> k = k'.
Proof. intros (_ & _ & _ & H & _) (_ & _ & _ & H' & _). congruence. Qed.

Lemma truthy_JStr k : truthy (JStr k) = true <-> k <> "".
Proof.
  simpl. destruct (String.eqb_spec k ""); simpl; split; congruence.
Qed.

Lemma merge_record_cases c record d :
  (merge_record c record d = (d, Ok tt) /\
   forall k, row_for c record k -> dict_get k d = None)
  \/ (exists e, merge_record c record d = (d, Raise e) /\
                forall k, ~ row_for c record k)
  \/ (exists k r v1 v2 v3,
         row_for c record k /\ dict_get k d = Some r /\
         getitem record (col_id c) = Ok v1 /\
         getitem record (col_en c) = Ok v2 /\
         getitem record (col_fr c) = Ok v3 /\
         merge_record c record d = (dict_set k (with_gc v1 v2 v3 r) d, Ok tt)).
Proof.
  unfold merge_record, bindM, lift, ret, membership.
  destruct (py_len record) as [n|e] eqn:Elen.
  2:{ right; left. exists e. split; [reflexivity|].
      intros k (n & Hn & _). congruence. }
  destruct (max_index c <? n)%nat eqn:Emax.
  2:{ left. split; [reflexivity|]. intros k (n' & Hn' & Hlt & _).
      rewrite Elen in Hn'. injection Hn' as <-. apply Nat.ltb_ge in Emax. lia. }
  apply Nat.ltb_lt in Emax.
  destruct (getitem record (col_iso c)) as [iso|e] eqn:Eiso.
  2:{ right; left. exists e. split; [reflexivity|].
      intros k (_ & _ & _ & H & _). congruence. }
  destruct (truthy iso) eqn:Etruthy.
  2:{ left. split; [reflexivity|]. intros k (_ & _ & _ & H & Hk).
      rewrite Eiso in H. injection H as ->. apply truthy_JStr in Hk. congruence. }
  assert (Hother : (forall k, iso <> JStr k) -> forall k, ~ row_for c record k).
  { intros Hne k (_ & _ & _ & H & _). rewrite Eiso in H. injection H as ->.
    now apply (Hne k). }
  destruct iso as [ | b | z | f | s | items | members]; simpl contains;
    try (left; split; [reflexivity|]; intros k Hk; exfalso;
         revert Hk; apply Hother; discriminate);
    try (right; left; exists TypeError; split; [reflexivity|];
         apply Hother; discriminate).
  clear Hother. unfold dict_mem.
  destruct (dict_get s d) as [r|] eqn:Eget.
  2:{ left. split; [reflexivity|]. intros k (_ & _ & _ & H & _).
      rewrite Eiso in H. injection H as <-. exact Eget. }
  right; right.
  assert (Hobj : forall members, record <> JObj members).
  { intros members ->. discriminate. }
  assert (Hle : (col_iso c <= max_index c /\ col_id c <= max_index c /\
                 col_en c <= max_index c /\ col_fr c <= max_index c)%nat)
    by (unfold max_index; lia).
  destruct (getitem_in_range record n (col_id c) Elen ltac:(lia) Hobj) as [v1 E1].
  destruct (getitem_in_range record n (col_en c) Elen ltac:(lia) Hobj) as [v2 E2].
  destruct (getitem_in_range record n (col_fr c) Elen ltac:(lia) Hobj) as [v3 E3].
  exists s, r, v1, v2, v3. rewrite E1, E2, E3.
  repeat split; try assumption.
  - exists n. repeat split; try assumption. now apply truthy_JStr.
  - unfold update_record. rewrite Eget, !dict_get_set_eq, !dict_set_twice.
    reflexivity.
Qed.

Lemma gc_from_with_gc c record v1 v2 v3 r :
  getitem record (col_id c) = Ok v1 ->
  getitem record (col_en c) = Ok v2 ->
  getitem record (col_fr c) = Ok v3 ->
  gc_from c record (with_gc v1 v2 v3 r).
Proof. intros. exists v1, v2, v3. unfold with_gc. simpl. repeat split; assumption. Qed.

Lemma reached_head c record rest d : reached c (record :: rest) d record.
Proof. exists [], rest. simpl. auto. Qed.

Lemma reached_tail c record0 rest d d1 record :
  merge_record c record0 d = (d1, Ok tt) ->
  reached c rest d1 record -> reached c (record0 :: rest) d record.
Proof.
  intros Hstep (before & after & -> & Hrun).
  exists (record0 :: before), after. split; [reflexivity|].
  simpl. unfold bindM. now rewrite Hstep.
Qed.

Lemma reached_inv c record0 rest d record :
  reached c (record0 :: rest) d record ->
  record = record0 \/
  (snd (merge_record c record0 d) = Ok tt /\
   reached c rest (fst (merge_record c record0 d)) record).
Proof.
  intros (before & after & Heq & Hrun).
  destruct before as [|b before]; simpl in Heq; injection Heq as <- ->; [now left|].
  right. simpl in Hrun. unfold bindM in Hrun.
  destruct (merge_record c record0 d) as [d1 [[]|e]]; simpl in *; [|discriminate].
  split; [reflexivity|]. now exists before, after.
Qed.

Lemma reached_In c records d record : reached c records d record -> In record records.
Proof. intros (before & after & -> & _). apply in_elt. Qed.

(** The record stored under a key after the loop: either it is as before and
    no record the loop got to names the key, or its GC fields are the cells
    of a record the loop got to that names the key. *)
Lemma for_each_merge_spec c records :
  forall d k r,
    dict_get k d = Some r ->
    exists r',
      dict_get k (fst (for_each (merge_record c) records d)) = Some r' /\
      ((r' = r /\ forall record, reached c records d record -> ~ row_for c record k)
       \/ (exists record,
              reached c records d record /\ row_for c record k /\
              gc_from c record r')).
Proof.
  induction records as [|record0 rest IH]; intros d k r Hget.
  - exists r. split; [exact Hget|]. left. split; [reflexivity|].
    intros record (before & after & Heq & _). now destruct before.
  - simpl. unfold bindM.
    destruct (merge_record_cases c record0 d)
      as [[Hstep Hskip] | [(e & Hstep & Hfail) | (k0 & r0 & v1 & v2 & v3 & Hrow & Hget0 & E1 & E2 & E3 & Hstep)]];
      rewrite Hstep.
    + destruct (IH d k r Hget) as (r' & Hr' & Hcase). exists r'. split; [exact Hr'|].
      destruct Hcase as [[-> Hnone] | (record & Hreach & Hrow & Hgc)].
      * left. split; [reflexivity|]. intros record Hreach Hrow.
        apply reached_inv in Hreach as [-> | [_ Hreach]].
        -- specialize (Hskip k Hrow). congruence.
        -- rewrite Hstep in Hreach. now apply (Hnone record).
      * right. exists record. split; [|auto]. eapply reached_tail; eassumption.
    + simpl. exists r. split; [exact Hget|]. left. split; [reflexivity|].
      intros record Hreach.
      apply reached_inv in Hreach as [-> | [Hok _]]; [apply Hfail|].
      rewrite Hstep in Hok. discriminate.
    + destruct (string_dec k k0) as [->|Hne].
      * assert (r0 = r) by congruence. subst r0.
        destruct (IH (dict_set k0 (with_gc v1 v2 v3 r) d) k0 (with_gc v1 v2 v3 r))
          as (r' & Hr' & Hcase); [apply dict_get_set_eq|].
        exists r'. split; [exact Hr'|]. right.
        destruct Hcase as [[-> Hnone] | (record & Hreach & Hrow' & Hgc)].
        -- exists record0. split; [apply reached_head|].
           split; [assumption | now apply gc_from_with_gc].
        -- exists record. split; [|auto]. eapply reached_tail; eassumption.
      * destruct (IH (dict_set k0 (with_gc v1 v2 v3 r0) d) k r)
          as (r' & Hr' & Hcase).
        { rewrite dict_get_set_neq by congruence. exact Hget. }
        exists r'. split; [exact Hr'|].
        destruct Hcase as [[-> Hnone] | (record & Hreach & Hrow' & Hgc)].
        -- left. split; [reflexivity|]. intros record Hreach Hrow'.
           apply reached_inv in Hreach as [-> | [_ Hreach]].
           ++ apply Hne. eapply row_for_functional; eassumption.
           ++ rewrite Hstep in Hreach. now apply (Hnone record).
        -- right. exists record. split; [|auto]. eapply reached_tail; eassumption.
Qed.

(** The block under [try] is the merge loop on [merge_input], or leaves the
    table alone. *)
Lemma enrich_merge_input reply d :
  match merge_input reply with
  | Some (c, records) => enrich reply d = for_each (merge_record c) records d
  | None => fst (enrich reply d) = d
  end.
Proof.
  unfold merge_input, enrich, bindM, lift.
  destruct (fetch reply) as [gc_data|e]; [|reflexivity].
  destruct (locate_columns gc_data) as [[ix records]|e]; [|reflexivity].
  simpl. destruct (all_indices ix) as [c|].
  - unfold merge_all, bindM, lift. destruct (iterate records); reflexivity.
  - destruct (iterate records); reflexivity.
Qed.

(** ** The tables of one run *)

Section ScriptFacts.

Variable metadata_for_region : string -> result (option phonenumbers.PhoneMetadata).
Variable regions : list string.
Variable reply : http_reply.

Let h := harvested metadata_for_region regions.
Let e := enriched metadata_for_region regions reply.

Lemma harvested_NoDup : NoDup (keys h).
Proof. subst h. unfold harvested. rewrite keys_add_fields. apply harvest_NoDup. Qed.

Lemma harvested_derived_shape : Forall derived_shape h.
Proof. apply add_fields_shape. Qed.

Lemma harvested_lacks_gc : Forall (fun kv => lacks_gc (snd kv)) h.
Proof. apply add_fields_shape. Qed.

Lemma enriched_keys : keys e = keys h.
Proof. apply enrichment_keys. Qed.

Lemma enriched_NoDup : NoDup (keys e).
Proof. rewrite enriched_keys. apply harvested_NoDup. Qed.

Lemma enriched_derived_shape : Forall derived_shape e.
Proof. apply enrichment_derived_shape, harvested_derived_shape. Qed.

(** The script always gets to the write, and writes the enriched table in
    order. *)
Lemma main_runs :
  exists w,
    main metadata_for_region regions reply = Ok w /\
    file_name w = output_file /\
    Permutation (document w) e /\
    StronglySorted entry_before (document w).
Proof.
  destruct (sort_table_spec e enriched_NoDup) as (out & Hsort & Hperm & Hsorted).
  { eapply Forall_impl; [|exact enriched_derived_shape]. intros kv H. apply H. }
  exists {| file_name := output_file; document := out |}.
  unfold main. fold e. rewrite Hsort. simpl. auto.
Qed.

Lemma enriched_origin k r' :
  In (k, r') e ->
  dict_get k e = Some r' /\ exists r, dict_get k h = Some r /\ lacks_gc r.
Proof.
  intros Hin. split; [now apply In_dict_get; [apply enriched_NoDup|]|].
  destruct (dict_get k h) as [r|] eqn:E.
  - exists r. split; [reflexivity|].
    pose proof harvested_lacks_gc as Hall. rewrite Forall_forall in Hall.
    apply (Hall (k, r)). now apply dict_get_In.
  - exfalso. apply dict_get_None in E. apply E. rewrite <- enriched_keys.
    change k with (fst (k, r')). now apply in_map.
Qed.

(** The GC fields of a record of the enriched table. *)
Lemma enriched_gc k r' :
  In (k, r') e ->
  (lacks_gc r' /\
   forall c records record,
     merge_input reply = Some (c, records) ->
     reached c records h record -> ~ row_for c record k)
  \/ (exists c records record,
         merge_input reply = Some (c, records) /\
         reached c records h record /\ row_for c record k /\
         gc_from c record r').
Proof.
  intros Hin. destruct (enriched_origin k r' Hin) as (Hget' & r & Hget & Hlacks).
  pose proof (enrich_merge_input reply h) as Hen.
  subst e h. unfold enriched, enrichment in Hget'.
  destruct (merge_input reply) as [[c records]|] eqn:Emi.
  - rewrite Hen in Hget'.
    destruct (for_each_merge_spec c records _ k r Hget) as (r'' & Hr'' & Hcase).
    assert (r'' = r') by congruence. subst r''.
    destruct Hcase as [[-> Hnone] | (record & Hreach & Hrow & Hgc)].
    + left. split; [assumption|]. intros c' records' record Heq.
      injection Heq as <- <-. apply Hnone.
    + right. exists c, records, record. auto.
  - left. rewrite Hen in Hget'. assert (r' = r) by congruence. subst r'.
    split; [assumption|]. intros c records record Heq. discriminate.
Qed.

End ScriptFacts.

Lemma gc_from_carries c record r : gc_from c record r -> carries_gc r.
Proof.
  intros (v1 & v2 & v3 & _ & _ & _ & H1 & H2 & H3). unfold carries_gc.
  rewrite H1, H2, H3. repeat split; discriminate.
Qed.

Lemma lacks_not_carries r : lacks_gc r -> ~ carries_gc r.
Proof. intros (H & _) (H' & _). contradiction. Qed.

(** ** The column scan *)

Lemma scan_fields_no_iso fields :
  Forall (fun field => exists id,
              method_get field "id" JNull = Ok id /\
              eq_str id "ISO_ALPHA_2_CD" = false) fields ->
  forall ix i,
    iso_alpha_2_index ix = None ->
    exists ix', scan_fields ix i fields = Ok ix' /\ iso_alpha_2_index ix' = None.
Proof.
  induction 1 as [|field fields (id & Hid & Hne) _ IH]; intros ix i Hix; simpl.
  - eauto.
  - unfold scan_field. rewrite Hid. simpl. rewrite Hne.
    destruct (eq_str id "GC_ID"); [|destruct (eq_str id "GC_NM_AB_EN");
                                     [|destruct (eq_str id "GC_NM_AB_FR")]];
      simpl; apply IH; assumption.
Qed.

Lemma merge_all_falsy c records d :
  truthy records = false -> fst (merge_all c records d) = d.
Proof.
  unfold merge_all, bindM, lift.
  destruct records as [ | b | z | f | s | items | members]; simpl; try reflexivity.
  - destruct s; [reflexivity | discriminate].
  - destruct items; [reflexivity | discriminate].
  - destruct members; [reflexivity | discriminate].
Qed.

(** * The harvested records *)

(** C7. The example format of every harvested record is "+<country_code> "
    followed by the X pattern of its tier: [max_length] X's when
    [max_length <= 4]; "XXX " and [max_length - 3] X's when
    [4 < max_length <= 7]; "XXX XXX " and [max_length - 6] X's when
    [max_length > 7]. A length of 6 gives "+<cc> XXX XXX" and a length of 3
    gives "+<cc> XXX". *)
Theorem example_format_tiers metadata_for_region regions k r :
  In (k, r) (get_up_to_date_phone_formats metadata_for_region regions) ->
  let cc := country_code r in
  let ml := max_length r in
  (ml <= 4 -> example_format r = "+" ++ cc ++ " " ++ x_run ml) /\
  (4 < ml <= 7 -> example_format r = "+" ++ cc ++ " " ++ "XXX " ++ x_run (ml - 3)) /\
  (7 < ml -> example_format r = "+" ++ cc ++ " " ++ "XXX XXX " ++ x_run (ml - 6)) /\
  (ml = 6 -> example_format r = "+" ++ cc ++ " XXX XXX") /\
  (ml = 3 -> example_format r = "+" ++ cc ++ " XXX").
Proof.
  intros Hin cc ml.
  pose proof (harvest_shape metadata_for_region regions) as Hall.
  rewrite Forall_forall in Hall.
  destruct (Hall _ Hin) as (md & desc & l & ls & _ & _ & _ & _ & _ & Hef & _).
  simpl in Hef. fold cc ml in Hef. rewrite Hef. clear Hef Hall Hin.
  unfold build_example_format. rewrite !str_mul_x_run. simpl.
  rewrite !append_assoc. simpl.
  repeat split; intros H.
  - apply Z.leb_le in H. now rewrite H.
  - destruct H as [H4 H7]. apply Z.leb_gt in H4. apply Z.leb_le in H7.
    now rewrite H4, H7.
  - assert (H4 : (ml <=? 4) = false) by (apply Z.leb_gt; lia).
    assert (H7 : (ml <=? 7) = false) by (apply Z.leb_gt; lia).
    now rewrite H4, H7.
  - now rewrite H.
  - now rewrite H.
Qed.

Lemma example_format_tiers_witness :
  In ("GB", sample_GB) (get_up_to_date_phone_formats sample_metadata sample_regions) /\
  In ("SH", sample_SH) (get_up_to_date_phone_formats sample_metadata sample_regions) /\
  example_format sample_GB = "+44 XXX XXX XXXX" /\
  example_format sample_SH = "+290 XXX XX".
Proof.
  assert (HGB : In ("GB", sample_GB)
                  (get_up_to_date_phone_formats sample_metadata sample_regions))
    by (vm_compute; tauto).
  assert (HSH : In ("SH", sample_SH)
                  (get_up_to_date_phone_formats sample_metadata sample_regions))
    by (vm_compute; tauto).
  split; [exact HGB|]. split; [exact HSH|]. split.
  - destruct (example_format_tiers sample_metadata sample_regions "GB" sample_GB HGB)
      as (_ & _ & H & _).
    apply H. simpl. lia.
  - destruct (example_format_tiers sample_metadata sample_regions "SH" sample_SH HSH)
      as (_ & H & _).
    apply H. simpl. lia.
Defined.

(** C10. Whatever the tier, the example format of a harvested record holds
    as many characters X as [max_length] says (none when it is negative):
    exactly [max_length] of them for a digit count, which is not negative.
    The tiers only insert spaces. *)
Theorem example_format_X_count metadata_for_region regions k r :
  In (k, r) (get_up_to_date_phone_formats metadata_for_region regions) ->
  count_char "X" (example_format r) = Z.to_nat (max_length r) /\
  (0 <= max_length r ->
   Z.of_nat (count_char "X" (example_format r)) = max_length r).
Proof.
  intros Hin.
  assert (Hcount : count_char "X" (example_format r) = Z.to_nat (max_length r)).
  { pose proof (harvest_shape metadata_for_region regions) as Hall.
    rewrite Forall_forall in Hall.
    destruct (Hall _ Hin) as (md & desc & l & ls & _ & _ & _ & Hcc & _ & Hef & _).
    simpl in Hcc, Hef. rewrite Hef, Hcc. unfold build_example_format, str_mul.
    destruct (max_length r <=? 4) eqn:E4; [|destruct (max_length r <=? 7) eqn:E7];
      rewrite !count_char_append, count_X_str_int, ?count_X_repeat; simpl;
      rewrite ?count_X_repeat.
    - lia.
    - apply Z.leb_gt in E4. lia.
    - apply Z.leb_gt in E4, E7. lia. }
  split; [exact Hcount|]. intros Hpos. rewrite Hcount. lia.
Qed.

Lemma example_format_X_count_witness :
  In ("GB", sample_GB) (get_up_to_date_phone_formats sample_metadata sample_regions) /\
  0 <= max_length sample_GB /\
  Z.of_nat (count_char "X" (example_format sample_GB)) = 10.
Proof.
  assert (HGB : In ("GB", sample_GB)
                  (get_up_to_date_phone_formats sample_metadata sample_regions))
    by (vm_compute; tauto).
  assert (Hpos : 0 <= max_length sample_GB) by (simpl; lia).
  split; [exact HGB|]. split; [exact Hpos|].
  exact (proj2 (example_format_X_count sample_metadata sample_regions "GB" sample_GB HGB)
               Hpos).
Defined.

(** C8. A region of the enumeration whose metadata, general description and
    possible-length list are all present and not empty has a harvested
    record, whose [max_length] is the maximum of that list; a region for
    which one of them is absent or empty has no record. *)
Theorem harvested_max_length metadata_for_region regions region :
  (forall lens,
      In region regions ->
      usable_lengths metadata_for_region region = Some lens ->
      exists r,
        dict_get region (get_up_to_date_phone_formats metadata_for_region regions)
          = Some r /\
        In (max_length r) lens /\
        Forall (fun l => l <= max_length r) lens) /\
  (usable_lengths metadata_for_region region = None ->
   dict_get region (get_up_to_date_phone_formats metadata_for_region regions) = None).
Proof.
  split; [|apply harvest_lookup_unusable].
  intros lens Hin Hu.
  pose proof (harvest_lookup_usable metadata_for_region regions [] region lens Hin Hu)
    as Hsome.
  fold (get_up_to_date_phone_formats metadata_for_region regions) in Hsome.
  destruct (dict_get region (get_up_to_date_phone_formats metadata_for_region regions))
    as [r|] eqn:Eget; [|congruence].
  exists r. split; [reflexivity|].
  pose proof (harvest_shape metadata_for_region regions) as Hall.
  rewrite Forall_forall in Hall.
  destruct (Hall _ (dict_get_In _ _ _ Eget))
    as (md & desc & l & ls & Hmd & Hdesc & Hlen & _ & Hml & _).
  simpl in Hmd, Hml. unfold usable_lengths in Hu.
  rewrite Hmd, Hdesc, Hlen in Hu. injection Hu as <-.
  rewrite Hml. apply py_max_spec.
Qed.

Lemma harvested_max_length_witness :
  (exists r,
      dict_get "GB" (get_up_to_date_phone_formats sample_metadata sample_regions)
        = Some r /\
      In (max_length r) [7; 9; 10] /\
      Forall (fun l => l <= max_length r) [7; 9; 10]) /\
  dict_get "XE" (get_up_to_date_phone_formats sample_metadata sample_regions) = None /\
  dict_get "XD" (get_up_to_date_phone_formats sample_metadata sample_regions) = None /\
  dict_get "XR" (get_up_to_date_phone_formats sample_metadata sample_regions) = None /\
  dict_get "ZZ" (get_up_to_date_phone_formats sample_metadata sample_regions) = None.
Proof.
  split.
  - apply (proj1 (harvested_max_length sample_metadata sample_regions "GB")).
    + simpl. tauto.
    + reflexivity.
  - repeat split;
      apply (proj2 (harvested_max_length sample_metadata sample_regions _));
      reflexivity.
Defined.

(** * The written table *)

(** C1. The entries of the written mapping, in file order, are those of the
    enriched table, grouped by country code, the groups in ascending order
    of the integer value of the country code and, inside a group, the ISO
    keys in ascending lexicographic order. A table {US: 1, CA: 1, GB: 44}
    comes out in the key order CA, US, GB. *)
Theorem output_order metadata_for_region regions reply :
  (exists w,
      main metadata_for_region regions reply = Ok w /\
      Permutation (document w) (enriched metadata_for_region regions reply) /\
      StronglySorted entry_before (document w)) /\
  (forall us ca gb,
      country_code us = "1" -> country_code ca = "1" -> country_code gb = "44" ->
      sort_table [("US", us); ("CA", ca); ("GB", gb)]
      = Ok [("CA", ca); ("US", us); ("GB", gb)]).
Proof.
  split.
  - destruct (main_runs metadata_for_region regions reply)
      as (w & Hmain & _ & Hperm & Hsorted).
    exists w. auto.
  - intros us ca gb Hus Hca Hgb.
    unfold sort_table, group_by_country_code. simpl.
    unfold group_step. simpl. rewrite Hus, Hca, Hgb. reflexivity.
Qed.

Lemma output_order_witness :
  country_code (sample_entry "1") = "1" /\
  country_code (sample_entry "44") = "44" /\
  sort_table [("US", sample_entry "1"); ("CA", sample_entry "1");
              ("GB", sample_entry "44")]
  = Ok [("CA", sample_entry "1"); ("US", sample_entry "1");
        ("GB", sample_entry "44")].
Proof.
  split; [reflexivity|]. split; [reflexivity|].
  apply (proj2 (output_order sample_metadata sample_regions sample_reply));
    reflexivity.
Defined.

(** C5. The regex field of every record of the written mapping is exactly
    "^\+", the country code, "\d{", the decimal digits of [max_length] (the
    string [int] reads back as [max_length]) and "}$". *)
Theorem regex_field metadata_for_region regions reply :
  exists w,
    main metadata_for_region regions reply = Ok w /\
    Forall (fun kv =>
              regex (snd kv)
              = Some ("^\+" ++ country_code (snd kv) ++ "\d{"
                      ++ str_int (max_length (snd kv)) ++ "}$") /\
              py_int (str_int (max_length (snd kv))) = Ok (max_length (snd kv)))
           (document w).
Proof.
  destruct (main_runs metadata_for_region regions reply)
    as (w & Hmain & _ & Hperm & _).
  exists w. split; [exact Hmain|].
  pose proof (enriched_derived_shape metadata_for_region regions reply) as Hall.
  rewrite Forall_forall in *. intros kv Hin.
  destruct (Hall kv (Permutation_in _ Hperm Hin)) as (_ & _ & _ & Hregex).
  split; [exact Hregex | apply py_int_str_int].
Qed.

(** C6. The total_max_digits field of every record of the written mapping is
    the length of the country code string plus [max_length]. *)
Theorem total_max_digits_field metadata_for_region regions reply :
  exists w,
    main metadata_for_region regions reply = Ok w /\
    Forall (fun kv =>
              total_max_digits (snd kv)
              = Some (Z.of_nat (String.length (country_code (snd kv)))
                      + max_length (snd kv)))
           (document w).
Proof.
  destruct (main_runs metadata_for_region regions reply)
    as (w & Hmain & _ & Hperm & _).
  exists w. split; [exact Hmain|].
  pose proof (enriched_derived_shape metadata_for_region regions reply) as Hall.
  rewrite Forall_forall in *. intros kv Hin.
  destruct (Hall kv (Permutation_in _ Hperm Hin)) as (_ & _ & Htotal & _).
  exact Htotal.
Qed.

(** C2. Every record of the written mapping has the base fields:
    country_code, max_length and example_format, which line 40 gives every
    record (they are the fields of [RegionFormatRecord] that are not
    optional), and ISO, total_max_digits and regex. A record has a GC field
    only when some fetched record holds the ISO code of the region in its
    ISO column. *)
Theorem output_record_fields metadata_for_region regions reply :
  exists w,
    main metadata_for_region regions reply = Ok w /\
    forall k r,
      In (k, r) (document w) ->
      has_base_fields r /\
      (GC_ID r <> None \/ GC_NM_AB_EN r <> None \/ GC_NM_AB_FR r <> None ->
       exists c records record,
         merge_input reply = Some (c, records) /\
         In record records /\
         getitem record (col_iso c) = Ok (JStr k)).
Proof.
  destruct (main_runs metadata_for_region regions reply)
    as (w & Hmain & _ & Hperm & _).
  exists w. split; [exact Hmain|]. intros k r Hin.
  apply (Permutation_in _ Hperm) in Hin. split.
  - pose proof (enriched_derived_shape metadata_for_region regions reply) as Hall.
    rewrite Forall_forall in Hall.
    destruct (Hall _ Hin) as (_ & Hiso & Htotal & Hregex). simpl in *.
    unfold has_base_fields. rewrite Hiso, Htotal, Hregex.
    repeat split; discriminate.
  - intros Hsome.
    destruct (enriched_gc metadata_for_region regions reply k r Hin)
      as [[(H1 & H2 & H3) _] | (c & records & record & Hmi & Hreach & Hrow & _)].
    + destruct Hsome as [H|[H|H]]; contradiction.
    + exists c, records, record. split; [exact Hmi|].
      split; [eapply reached_In; exact Hreach|].
      destruct Hrow as (_ & _ & _ & Hget & _). exact Hget.
Qed.

Lemma output_record_fields_witness :
  exists w r,
    main sample_metadata sample_regions sample_reply = Ok w /\
    In ("GB", r) (document w) /\
    has_base_fields r /\
    GC_ID r <> None /\
    exists c records record,
      merge_input sample_reply = Some (c, records) /\
      In record records /\
      getitem record (col_iso c) = Ok (JStr "GB").
Proof.
  destruct (output_record_fields sample_metadata sample_regions sample_reply)
    as (w & Hmain & Hall).
  vm_compute in Hmain. injection Hmain as <-.
  eexists. eexists. split; [reflexivity|].
  match goal with
  | |- In (?k, ?r) ?l /\ _ =>
      assert (Hin : In (k, r) l) by (simpl; right; right; left; reflexivity)
  end.
  split; [exact Hin|].
  destruct (Hall _ _ Hin) as [Hbase Hgc].
  split; [exact Hbase|]. split; [simpl; discriminate|].
  apply Hgc. left. simpl. discriminate.
Defined.

(** C4. When [requests.get] raises, a connection error included, the table
    that is sorted and written is the harvested table as it was before the
    enrichment, and the script still reaches the write of the output
    file. *)
Theorem connection_error_keeps_harvested metadata_for_region regions err :
  enriched metadata_for_region regions (GetRaises err)
  = harvested metadata_for_region regions /\
  exists sorted_phone_format_data,
    sort_table (harvested metadata_for_region regions)
    = Ok sorted_phone_format_data /\
    Permutation sorted_phone_format_data (harvested metadata_for_region regions) /\
    main metadata_for_region regions (GetRaises err)
    = Ok {| file_name := "phone_formats_e164.json";
            document := sorted_phone_format_data |}.
Proof.
  assert (Hsame : enriched metadata_for_region regions (GetRaises err)
                  = harvested metadata_for_region regions) by reflexivity.
  split; [exact Hsame|].
  destruct (main_runs metadata_for_region regions (GetRaises err))
    as (w & Hmain & Hfile & Hperm & _).
  exists (document w). unfold main in *. rewrite Hsame in *.
  destruct (sort_table (harvested metadata_for_region regions)) as [out|];
    simpl in *; [|discriminate].
  injection Hmain as <-. simpl in *. auto.
Qed.

(** C9. When the field list is a list of objects none of which has the id
    ISO_ALPHA_2_CD, the enrichment leaves the table that the merge loop
    leaves when run with the positions 19 (ISO), 0 (GC_ID), 4 (English
    name) and 5 (French name), whatever positions the scan found for the
    other three columns. *)
Theorem fallback_columns_used reply gc_data fields items records d :
  fetch reply = Ok gc_data ->
  method_get gc_data "fields" (JArr []) = Ok fields ->
  iterate fields = Ok items ->
  Forall (fun field => exists id,
              method_get field "id" JNull = Ok id /\
              eq_str id "ISO_ALPHA_2_CD" = false) items ->
  method_get gc_data "records" (JArr []) = Ok records ->
  enrichment reply d
  = fst (merge_all {| col_iso := 19; col_id := 0; col_en := 4; col_fr := 5 |}
                   records d).
Proof.
  intros Hfetch Hfields Hitems Hnone Hrecords.
  destruct (scan_fields_no_iso items Hnone no_indices 0%nat eq_refl)
    as (ix & Hscan & Hiso).
  unfold enrichment, enrich, bindM, lift. rewrite Hfetch.
  unfold locate_columns. rewrite Hfields. simpl. rewrite Hitems. simpl.
  rewrite Hscan. simpl. rewrite Hrecords. simpl. rewrite Hiso.
  destruct (truthy records) eqn:Etruthy; simpl.
  - reflexivity.
  - unfold all_indices. rewrite Hiso. simpl.
    now rewrite merge_all_falsy.
Qed.

Lemma fallback_columns_used_witness :
  enrichment sample_unnamed_reply (harvested sample_metadata sample_regions)
  = fst (merge_all {| col_iso := 19; col_id := 0; col_en := 4; col_fr := 5 |}
                   (JArr [sample_unnamed_row])
                   (harvested sample_metadata sample_regions)) /\
  option_map GC_ID
    (dict_get "CA" (enrichment sample_unnamed_reply
                               (harvested sample_metadata sample_regions)))
  = Some (Some (JStr "1000124")).
Proof.
  split; [|reflexivity].
  eapply (fallback_columns_used sample_unnamed_reply); try reflexivity.
  repeat constructor; eexists; split; reflexivity.
Defined.

(** C3, as the code has it. A record of the written mapping carries GC_ID,
    GC_NM_AB_EN and GC_NM_AB_FR if and only if the enrichment entered the
    merge loop with its four columns located and the loop got, without
    raising on an earlier fetched record, to a fetched record whose length
    covers the four columns and whose ISO column holds the non-empty ISO
    code of the record. The three fields are then the cells of one such
    fetched record, a record has the three fields or none of them, and the
    keys of the written mapping are those of the harvested table. *)
Theorem gc_fields_attached metadata_for_region regions reply :
  exists w,
    main metadata_for_region regions reply = Ok w /\
    Permutation (keys (document w)) (keys (harvested metadata_for_region regions)) /\
    forall k r,
      In (k, r) (document w) ->
      (carries_gc r <->
       exists c records record,
         merge_input reply = Some (c, records) /\
         reached c records (harvested metadata_for_region regions) record /\
         row_for c record k) /\
      (carries_gc r ->
       exists c records record,
         merge_input reply = Some (c, records) /\
         reached c records (harvested metadata_for_region regions) record /\
         row_for c record k /\
         gc_from c record r) /\
      (~ carries_gc r -> lacks_gc r).
Proof.
  destruct (main_runs metadata_for_region regions reply)
    as (w & Hmain & _ & Hperm & _).
  exists w. split; [exact Hmain|]. split.
  - rewrite <- (enriched_keys metadata_for_region regions reply).
    now apply Permutation_map.
  - intros k r Hin. apply (Permutation_in _ Hperm) in Hin.
    destruct (enriched_gc metadata_for_region regions reply k r Hin)
      as [[Hlacks Hnone] | (c & records & record & Hmi & Hreach & Hrow & Hgc)].
    + pose proof (lacks_not_carries r Hlacks) as Hnot. split; [|split].
      * split; [intros H; contradiction|].
        intros (c & records & record & Hmi & Hreach & Hrow).
        exfalso. exact (Hnone c records record Hmi Hreach Hrow).
      * intros H. contradiction.
      * intros _. exact Hlacks.
    + pose proof (gc_from_carries c record r Hgc) as Hcarries. split; [|split].
      * split; [|intros _; exact Hcarries].
        intros _. exists c, records, record. auto.
      * intros _. exists c, records, record. auto.
      * intros H. contradiction.
Qed.

Lemma gc_fields_attached_witness :
  exists w ca gb,
    main sample_metadata sample_regions sample_broken_reply = Ok w /\
    In ("CA", ca) (document w) /\ In ("GB", gb) (document w) /\
    carries_gc ca /\ GC_ID ca = Some (JStr "1000124") /\ lacks_gc gb.
Proof.
  destruct (gc_fields_attached sample_metadata sample_regions sample_broken_reply)
    as (w & Hmain & _ & Hall).
  vm_compute in Hmain. injection Hmain as <-.
  eexists. eexists. eexists. split; [reflexivity|].
  match goal with
  | |- In (?k, ?r) ?l /\ In (?k', ?r') ?l /\ _ =>
      assert (Hca : In (k, r) l) by (simpl; left; reflexivity);
      assert (Hgb : In (k', r') l) by (simpl; right; right; left; reflexivity)
  end.
  split; [exact Hca|]. split; [exact Hgb|].
  destruct (Hall _ _ Hca) as (Hiff & _ & _).
  destruct (Hall _ _ Hgb) as (_ & _ & Hnone).
  split; [|split; [reflexivity|]].
  - apply Hiff.
    exists {| col_iso := 1; col_id := 0; col_en := 2; col_fr := 3 |}.
    eexists. exists (sample_row "1000124" "CA" "Canada" "Canada").
    split; [reflexivity|]. split; [apply reached_head|].
    exists 4%nat. split; [reflexivity|]. split; [unfold max_index; simpl; lia|].
    split; [reflexivity | discriminate].
  - apply Hnone. intros (H & _). apply H. reflexivity.
Defined.

(** The claim C3 as the specification words it fails: on the reply whose
    second record is the number 5 the enrichment ends in the handler, and
    the record of CA, merged before that, carries the three GC fields. *)
Lemma gc_fields_despite_failure :
  exists w r,
    main sample_metadata sample_regions sample_broken_reply = Ok w /\
    In ("CA", r) (document w) /\
    ~ (carries_gc r <->
       enrichment_failed sample_broken_reply
                         (harvested sample_metadata sample_regions) = false /\
       exists c records record,
         merge_input sample_broken_reply = Some (c, records) /\
         In record records /\ row_for c record "CA").
Proof.
  eexists. eexists. split; [vm_compute; reflexivity|].
  split; [simpl; left; reflexivity|].
  intros [Hto _].
  assert (Hfailed : enrichment_failed sample_broken_reply
                      (harvested sample_metadata sample_regions) = true)
    by (vm_compute; reflexivity).
  destruct Hto as [Hok _].
  - repeat split; discriminate.
  - congruence.
Qed.

(** * Further properties *)

(** ** The harvester: which regions get a record, and in which order *)

Section HarvesterOrder.

Variable metadata_for_region : string -> result (option phonenumbers.PhoneMetadata).

Let step := harvest_region metadata_for_region.

Lemma harvest_not_listed regions acc k :
  ~ In k regions -> dict_get k (fold_left step regions acc) = dict_get k acc.
Proof.
  revert acc. induction regions as [|r rs IH]; intros acc Hni; simpl; [reflexivity|].
  rewrite IH by (intros H; apply Hni; now right).
  apply harvest_region_other. intros ->. apply Hni. now left.
Qed.

Lemma harvest_region_keys acc region :
  ~ In region (keys acc) ->
  keys (step acc region)
  = (keys acc ++ if usable metadata_for_region region then [region] else [])%list.
Proof.
  intros Hni. subst step. unfold usable, usable_lengths, harvest_region.
  destruct (metadata_for_region region) as [[md|]|];
    try (now rewrite List.app_nil_r).
  destruct (phonenumbers.general_desc md) as [desc|];
    try (now rewrite List.app_nil_r).
  destruct (phonenumbers.possible_length desc) as [|l ls];
    try (now rewrite List.app_nil_r).
  rewrite dict_set_fresh by (now apply dict_get_None).
  unfold keys. now rewrite map_app.
Qed.

Lemma harvest_fold_keys regions acc :
  NoDup regions ->
  (forall r, In r regions -> ~ In r (keys acc)) ->
  keys (fold_left step regions acc)
  = (keys acc ++ filter (usable metadata_for_region) regions)%list.
Proof.
  revert acc. induction regions as [|r rs IH]; intros acc Hnd Hfresh; simpl.
  - now rewrite List.app_nil_r.
  - inversion Hnd as [|? ? Hni Hnd']; subst.
    assert (Hkeys := harvest_region_keys acc r (Hfresh r (or_introl eq_refl))).
    rewrite IH; [| assumption |].
    + rewrite Hkeys. destruct (usable metadata_for_region r); simpl.
      * now rewrite <- List.app_assoc.
      * now rewrite List.app_nil_r.
    + intros r' Hr'. rewrite Hkeys. intros Hin. apply in_app_or in Hin as [Hin|Hin].
      * apply (Hfresh r'); [now right | assumption].
      * destruct (usable metadata_for_region r); [|contradiction].
        destruct Hin as [<-|[]]. contradiction.
Qed.

Lemma harvest_keys_iff regions k :
  In k (keys (get_up_to_date_phone_formats metadata_for_region regions)) <->
  In k regions /\ usable metadata_for_region k = true.
Proof.
  unfold usable, get_up_to_date_phone_formats.
  destruct (in_dec string_dec k regions) as [Hin|Hni].
  - destruct (usable_lengths metadata_for_region k) as [lens|] eqn:Eu.
    + pose proof (harvest_lookup_usable metadata_for_region regions [] k lens Hin Eu)
        as Hsome.
      split; [tauto|]. intros _.
      destruct (in_dec string_dec k
                  (keys (fold_left (harvest_region metadata_for_region) regions [])))
        as [H|H]; [exact H|].
      apply dict_get_None in H. contradiction.
    + pose proof (harvest_lookup_unusable metadata_for_region regions k Eu) as Hnone.
      apply dict_get_None in Hnone. unfold get_up_to_date_phone_formats in Hnone.
      split; [contradiction | intros [_ H]; discriminate].
  - pose proof (harvest_not_listed regions [] k Hni) as Hnone. simpl in Hnone.
    apply dict_get_None in Hnone. subst step. tauto.
Qed.

End HarvesterOrder.

(** X1. With a region enumeration that lists no region twice, the harvested
    table holds, in the order of the enumeration, exactly the regions whose
    metadata, general description and possible-length list are present and
    not empty: a region that is skipped or whose lookup raises leaves no gap
    and does not stop the loop. *)
Theorem harvest_insertion_order metadata_for_region regions :
  NoDup regions ->
  keys (get_up_to_date_phone_formats metadata_for_region regions)
  = filter (usable metadata_for_region) regions.
Proof.
  intros Hnd. unfold get_up_to_date_phone_formats.
  rewrite harvest_fold_keys; [reflexivity | assumption | auto].
Qed.

Lemma harvest_insertion_order_witness :
  NoDup sample_regions /\
  keys (get_up_to_date_phone_formats sample_metadata sample_regions)
  = ["US"; "GB"; "CA"; "NU"; "SH"].
Proof.
  assert (Hnd : NoDup sample_regions).
  { unfold sample_regions.
    repeat (constructor; [simpl; intuition discriminate|]). constructor. }
  split; [exact Hnd|].
  exact (harvest_insertion_order sample_metadata sample_regions Hnd).
Defined.

(** ** The written table: that it is written, its keys, its ISO fields *)

(** X2. Whatever the metadata, the region enumeration and the HTTP reply,
    the script reaches the write of phone_formats_e164.json: [int] at line
    152 never raises, the country codes being strings written by [str] at
    line 23, and what is written is the sort of the enriched table. *)
Theorem script_reaches_write metadata_for_region regions reply :
  exists w,
    main metadata_for_region regions reply = Ok w /\
    file_name w = "phone_formats_e164.json" /\
    sort_table (enriched metadata_for_region regions reply) = Ok (document w).
Proof.
  destruct (main_runs metadata_for_region regions reply)
    as (w & Hmain & Hfile & _).
  exists w. split; [exact Hmain|]. split; [exact Hfile|].
  unfold main in Hmain.
  destruct (sort_table (enriched metadata_for_region regions reply)) as [out|];
    simpl in Hmain; [|discriminate].
  now injection Hmain as <-.
Qed.

(** X3. The keys of the written mapping are pairwise distinct and are
    exactly the regions of the enumeration for which the harvester stores a
    record: the enrichment and the sort add no key and drop none. *)
Theorem output_keys metadata_for_region regions reply :
  exists w,
    main metadata_for_region regions reply = Ok w /\
    NoDup (keys (document w)) /\
    forall k,
      In k (keys (document w)) <->
      In k regions /\ usable metadata_for_region k = true.
Proof.
  destruct (main_runs metadata_for_region regions reply)
    as (w & Hmain & _ & Hperm & _).
  exists w. split; [exact Hmain|].
  assert (Hkeys : Permutation (keys (document w))
                    (keys (get_up_to_date_phone_formats metadata_for_region regions))).
  { transitivity (keys (enriched metadata_for_region regions reply));
      [now apply Permutation_map|].
    rewrite enriched_keys. unfold harvested. now rewrite keys_add_fields. }
  split.
  - eapply Permutation_NoDup; [symmetry; exact Hkeys | apply harvest_NoDup].
  - intros k. rewrite <- harvest_keys_iff. split; apply Permutation_in;
      [exact Hkeys | symmetry; exact Hkeys].
Qed.

(** X4. In every entry of the written mapping the ISO field is the key the
    record is stored under. *)
Theorem iso_field_is_key metadata_for_region regions reply :
  exists w,
    main metadata_for_region regions reply = Ok w /\
    Forall (fun kv => ISO (snd kv) = Some (fst kv)) (document w).
Proof.
  destruct (main_runs metadata_for_region regions reply)
    as (w & Hmain & _ & Hperm & _).
  exists w. split; [exact Hmain|].
  pose proof (enriched_derived_shape metadata_for_region regions reply) as Hall.
  rewrite Forall_forall in *. intros kv Hin.
  destruct (Hall kv (Permutation_in _ Hperm Hin)) as (_ & Hiso & _).
  exact Hiso.
Qed.

(** X5. The country code of every record of the written mapping is the
    decimal string of the calling code in the metadata of its region, and
    the key by which line 152 sorts it, [int] of that string, is that
    calling code again. *)
Theorem sort_key_is_calling_code metadata_for_region regions reply :
  exists w,
    main metadata_for_region regions reply = Ok w /\
    Forall (fun kv =>
              exists metadata,
                metadata_for_region (fst kv) = Ok (Some metadata) /\
                country_code (snd kv)
                = str_int (phonenumbers.country_code metadata) /\
                py_int (country_code (snd kv))
                = Ok (phonenumbers.country_code metadata))
           (document w).
Proof.
  destruct (main_runs metadata_for_region regions reply)
    as (w & Hmain & _ & Hperm & _).
  exists w. split; [exact Hmain|].
  set (P := fun kv : entry =>
              exists metadata,
                metadata_for_region (fst kv) = Ok (Some metadata) /\
                country_code (snd kv)
                = str_int (phonenumbers.country_code metadata)).
  assert (Hall : Forall P (enriched metadata_for_region regions reply)).
  { apply enrichment_Forall.
    - intros k r v H. repeat split; exact H.
    - unfold harvested, add_fields. rewrite Forall_map.
      eapply Forall_impl; [|apply harvest_shape]. intros [k r].
      intros (md & desc & l & ls & Hmd & _ & _ & Hcc & _). exists md. simpl in *.
      auto. }
  rewrite Forall_forall in *. intros kv Hin.
  destruct (Hall kv (Permutation_in _ Hperm Hin)) as (md & Hmd & Hcc).
  exists md. split; [exact Hmd|]. split; [exact Hcc|].
  rewrite Hcc. apply py_int_str_int.
Qed.

(** ** The enrichment: what it leaves alone *)

Lemma Forall2_dict_set (R : entry -> entry -> Prop) d d' k r r' :
  Forall2 R d d' ->
  dict_get k d' = Some r ->
  (forall a k', R a (k', r) -> R a (k', r')) ->
  Forall2 R d (dict_set k r' d').
Proof.
  intros Hall. revert r. induction Hall as [|a [k0 v0] d d' Ha Hall IH];
    intros r Hget Hstep; simpl in *; [discriminate|].
  destruct (String.eqb k k0).
  - injection Hget as ->. constructor; [now apply Hstep | assumption].
  - constructor; [assumption | now apply (IH r)].
Qed.

Lemma enriched_from_refl a : enriched_from a a.
Proof. unfold enriched_from, same_base. tauto. Qed.

(** X6. Whatever the reply and whatever the table, the enrichment keeps the
    entries in their places: the table after it has the same keys in the
    same order, every record keeps its six base fields, and a GC field that
    was there is still there. *)
Theorem enrichment_only_touches_gc reply d :
  Forall2 enriched_from d (enrichment reply d).
Proof.
  apply (enrichment_keeps (fun d' => Forall2 enriched_from d d')).
  - intros k r d' Hd' Hget v.
    repeat split;
      (eapply Forall2_dict_set; [exact Hd' | exact Hget |]);
      intros a k' (Hk & Hbase & H1 & H2 & H3); simpl in *;
      (split; [exact Hk|]); (split; [exact Hbase|]); simpl;
      repeat split; auto; discriminate.
  - clear. induction d; constructor; auto using enriched_from_refl.
Qed.

(** ** The enrichment: the failures before the loop *)

Lemma enrich_fetch_fails reply e d :
  fetch reply = Raise e -> enrichment reply d = d.
Proof. intros H. unfold enrichment, enrich, bindM, lift. now rewrite H. Qed.

Lemma enrich_locate_fails reply gc_data e d :
  fetch reply = Ok gc_data -> locate_columns gc_data = Raise e ->
  enrichment reply d = d.
Proof.
  intros H1 H2. unfold enrichment, enrich, bindM, lift. now rewrite H1, H2.
Qed.

(** X7. [raise_for_status] decides by the status code alone: with a code
    from 400 to 599 the enrichment leaves the table as it was; with any
    other code, 2xx or not, it does what it does for 200 with the same
    body. *)
Theorem status_code_handling status_code body d :
  (400 <= status_code < 600 -> enrichment (Response status_code body) d = d) /\
  (status_code < 400 \/ 600 <= status_code ->
   enrichment (Response status_code body) d = enrichment (Response 200 body) d).
Proof.
  split.
  - intros [Hlo Hhi]. apply (enrich_fetch_fails _ HTTPError). simpl.
    unfold raise_for_status.
    apply Z.leb_le in Hlo. apply Z.ltb_lt in Hhi. now rewrite Hlo, Hhi.
  - intros Hout. unfold enrichment, enrich.
    assert (Hfetch : fetch (Response status_code body) = fetch (Response 200 body)).
    { simpl. unfold raise_for_status.
      destruct Hout as [H|H].
      - apply Z.leb_gt in H. now rewrite H.
      - apply Z.ltb_ge in H. rewrite H. now rewrite andb_false_r. }
    now rewrite Hfetch.
Qed.

Lemma status_code_handling_witness :
  enrichment sample_error_reply (harvested sample_metadata sample_regions)
  = harvested sample_metadata sample_regions /\
  enrichment (Response 302 (Ok sample_body)) (harvested sample_metadata sample_regions)
  = enrichment sample_reply (harvested sample_metadata sample_regions).
Proof.
  split.
  - apply (proj1 (status_code_handling 503 (Ok sample_body) _)). lia.
  - apply (proj2 (status_code_handling 302 (Ok sample_body) _)). lia.
Defined.

Lemma scan_fields_not_object fields field :
  In field fields -> ~ is_object field ->
  forall ix i, exists e, scan_fields ix i fields = Raise e.
Proof.
  intros Hin Hno. induction fields as [|f rest IH]; [contradiction|].
  intros ix i. simpl.
  destruct (scan_field ix i f) as [ix'|e] eqn:Estep; simpl; [|eauto].
  destruct Hin as [->|Hin]; [|now apply IH].
  exfalso. unfold scan_field in Estep.
  destruct field; simpl in Estep; try discriminate.
  apply Hno. now eexists.
Qed.

Lemma locate_columns_records gc_data ix records :
  locate_columns gc_data = Ok (ix, records) ->
  method_get gc_data "records" (JArr []) = Ok records.
Proof.
  unfold locate_columns.
  destruct (method_get gc_data "fields" (JArr [])) as [fields|]; simpl; [|discriminate].
  destruct (iterate fields) as [items|]; simpl; [|discriminate].
  destruct (scan_fields no_indices 0 items) as [ix'|]; simpl; [|discriminate].
  destruct (method_get gc_data "records" (JArr [])) as [records'|]; simpl;
    [|discriminate].
  destruct (iso_alpha_2_index ix'); [|destruct (truthy records')];
    intros H; injection H as _ <-; reflexivity.
Qed.

(** X8. The failures the handler of line 130 absorbs before the merge loop
    starts leave the table as it was: a body that is not JSON, a body that
    is not an object, a field list with an entry that is not an object, and
    a [records] value that cannot be iterated. *)
Theorem malformed_reply_keeps_table status_code d :
  (forall e, enrichment (Response status_code (Raise e)) d = d) /\
  (forall body,
      ~ is_object body -> enrichment (Response status_code (Ok body)) d = d) /\
  (forall gc_data fields items field,
      method_get gc_data "fields" (JArr []) = Ok fields ->
      iterate fields = Ok items ->
      In field items -> ~ is_object field ->
      enrichment (Response status_code (Ok gc_data)) d = d) /\
  (forall gc_data records e,
      method_get gc_data "records" (JArr []) = Ok records ->
      iterate records = Raise e ->
      enrichment (Response status_code (Ok gc_data)) d = d).
Proof.
  assert (Hfetch : forall body,
             (exists e, fetch (Response status_code body) = Raise e) \/
             fetch (Response status_code body) = body).
  { intros body. simpl. destruct (raise_for_status status_code); simpl; eauto. }
  repeat split.
  - intros e. destruct (Hfetch (Raise e)) as [[e' H]|H];
      eapply enrich_fetch_fails; exact H.
  - intros body Hno. destruct (Hfetch (Ok body)) as [[e' H]|H];
      [eapply enrich_fetch_fails; exact H|].
    apply (enrich_locate_fails _ body AttributeError); [exact H|].
    destruct body; try reflexivity. exfalso. apply Hno. now eexists.
  - intros gc_data fields items field Hfields Hitems Hin Hno.
    destruct (Hfetch (Ok gc_data)) as [[e' H]|H];
      [eapply enrich_fetch_fails; exact H|].
    destruct (scan_fields_not_object items field Hin Hno no_indices 0%nat)
      as [e Hscan].
    apply (enrich_locate_fails _ gc_data e); [exact H|].
    unfold locate_columns. rewrite Hfields. simpl. rewrite Hitems. simpl.
    now rewrite Hscan.
  - intros gc_data records e Hrecords Hiter.
    destruct (Hfetch (Ok gc_data)) as [[e' H]|H];
      [eapply enrich_fetch_fails; exact H|].
    destruct (locate_columns gc_data) as [[ix records']|e'] eqn:Eloc;
      [|eapply enrich_locate_fails; eassumption].
    apply locate_columns_records in Eloc as Hrec. rewrite Hrecords in Hrec.
    injection Hrec as <-.
    unfold enrichment, enrich, bindM, lift. rewrite H, Eloc. simpl.
    destruct (all_indices ix); [|reflexivity].
    unfold merge_all, bindM, lift. now rewrite Hiter.
Qed.

Lemma malformed_reply_keeps_table_witness :
  enrichment sample_list_reply (harvested sample_metadata sample_regions)
  = harvested sample_metadata sample_regions /\
  enrichment sample_bad_field_reply (harvested sample_metadata sample_regions)
  = harvested sample_metadata sample_regions /\
  enrichment (Response 200 (Ok (JObj [("fields", sample_fields); ("records", JInt 7)])))
             (harvested sample_metadata sample_regions)
  = harvested sample_metadata sample_regions.
Proof.
  pose proof (malformed_reply_keeps_table
                200 (harvested sample_metadata sample_regions))
    as (_ & Hbody & Hfield & Hrecords).
  split; [|split].
  - apply Hbody. intros [members H]. discriminate.
  - apply (Hfield _ (JArr [JObj [("id", JStr "ISO_ALPHA_2_CD")]; JStr "GC_ID"])
                  [JObj [("id", JStr "ISO_ALPHA_2_CD")]; JStr "GC_ID"]
                  (JStr "GC_ID")).
    + reflexivity.
    + reflexivity.
    + simpl. tauto.
    + intros [members H]. discriminate.
  - apply (Hrecords _ (JInt 7) TypeError); reflexivity.
Defined.

(** ** The column scan *)

Lemma last_named_located name fields : located name fields (last_named name fields).
Proof.
  induction fields as [|f rest IH]; simpl; [intros field []|].
  destruct (last_named name rest) as [j|].
  - simpl in *. destruct IH as [Hat Hlater]. split; [exact Hat|].
    intros j' field Hlt Hnth. destruct j' as [|j']; [lia|].
    simpl in Hnth. apply (Hlater j' field); [lia | assumption].
  - simpl in IH. destruct (field_named name f) eqn:Ef; simpl.
    + split; [now exists f|].
      intros j' field Hlt Hnth. destruct j' as [|j']; [lia|].
      simpl in Hnth. apply IH. eapply nth_error_In. exact Hnth.
    + intros field [<-|Hin]; [assumption | now apply IH].
Qed.

Lemma scan_fields_last fields :
  Forall is_object fields ->
  forall ix i,
    scan_fields ix i fields
    = Ok {| iso_alpha_2_index :=
              match last_named "ISO_ALPHA_2_CD" fields with
              | Some j => Some (i + j)%nat
              | None => iso_alpha_2_index ix
              end;
            gc_id_index :=
              match last_named "GC_ID" fields with
              | Some j => Some (i + j)%nat
              | None => gc_id_index ix
              end;
            gc_nm_ab_en_index :=
              match last_named "GC_NM_AB_EN" fields with
              | Some j => Some (i + j)%nat
              | None => gc_nm_ab_en_index ix
              end;
            gc_nm_ab_fr_index :=
              match last_named "GC_NM_AB_FR" fields with
              | Some j => Some (i + j)%nat
              | None => gc_nm_ab_fr_index ix
              end |}.
Proof.
  induction 1 as [|f rest [members ->] _ IH]; intros ix i.
  - destruct ix; reflexivity.
  - cbn [scan_fields last_named]. unfold scan_field, field_named.
    cbn [method_get]. destruct (dict_get "id" members) as [id|]; cbn [bind].
    2:{ cbn [eq_str bind]. rewrite IH.
        cbn [iso_alpha_2_index gc_id_index gc_nm_ab_en_index gc_nm_ab_fr_index].
        repeat match goal with
               | |- context [last_named ?n rest] => destruct (last_named n rest)
               end;
          f_equal; f_equal; f_equal; lia. }
    assert (Hcases :
              (eq_str id "ISO_ALPHA_2_CD" = true /\ eq_str id "GC_ID" = false /\
               eq_str id "GC_NM_AB_EN" = false /\ eq_str id "GC_NM_AB_FR" = false) \/
              (eq_str id "ISO_ALPHA_2_CD" = false /\ eq_str id "GC_ID" = true /\
               eq_str id "GC_NM_AB_EN" = false /\ eq_str id "GC_NM_AB_FR" = false) \/
              (eq_str id "ISO_ALPHA_2_CD" = false /\ eq_str id "GC_ID" = false /\
               eq_str id "GC_NM_AB_EN" = true /\ eq_str id "GC_NM_AB_FR" = false) \/
              (eq_str id "ISO_ALPHA_2_CD" = false /\ eq_str id "GC_ID" = false /\
               eq_str id "GC_NM_AB_EN" = false /\ eq_str id "GC_NM_AB_FR" = true) \/
              (eq_str id "ISO_ALPHA_2_CD" = false /\ eq_str id "GC_ID" = false /\
               eq_str id "GC_NM_AB_EN" = false /\ eq_str id "GC_NM_AB_FR" = false)).
    { destruct id; simpl; try tauto.
      destruct (String.eqb_spec s "ISO_ALPHA_2_CD") as [->|];
        [left; repeat split; reflexivity|].
      destruct (String.eqb_spec s "GC_ID") as [->|];
        [right; left; repeat split; reflexivity|].
      destruct (String.eqb_spec s "GC_NM_AB_EN") as [->|];
        [right; right; left; repeat split; reflexivity|].
      destruct (String.eqb_spec s "GC_NM_AB_FR") as [->|]; tauto. }
    destruct Hcases as [H|[H|[H|[H|H]]]];
      destruct H as (H1 & H2 & H3 & H4); rewrite H1, ?H2, ?H3, ?H4;
      cbn [bind]; rewrite IH; cbn [iso_alpha_2_index gc_id_index
                                   gc_nm_ab_en_index gc_nm_ab_fr_index];
      repeat match goal with
             | |- context [last_named ?n rest] => destruct (last_named n rest)
             end;
      f_equal; f_equal; f_equal; lia.
Qed.

(** X9. On a field list whose entries are all objects the scan of lines
    89-97 does not raise, and for each of the four ids it records the
    position of the last field with that id, or nothing when no field has
    it. *)
Theorem scan_finds_last_fields fields :
  Forall is_object fields ->
  exists ix,
    scan_fields no_indices 0 fields = Ok ix /\
    located "ISO_ALPHA_2_CD" fields (iso_alpha_2_index ix) /\
    located "GC_ID" fields (gc_id_index ix) /\
    located "GC_NM_AB_EN" fields (gc_nm_ab_en_index ix) /\
    located "GC_NM_AB_FR" fields (gc_nm_ab_fr_index ix).
Proof.
  intros Hobj. eexists. split; [apply (scan_fields_last fields Hobj)|].
  cbn [iso_alpha_2_index gc_id_index gc_nm_ab_en_index gc_nm_ab_fr_index no_indices].
  repeat split;
    match goal with
    | |- located ?n _ _ =>
        pose proof (last_named_located n fields) as H;
        destruct (last_named n fields); exact H
    end.
Qed.

Lemma scan_finds_last_fields_witness :
  exists ix,
    scan_fields no_indices 0
      [JObj [("id", JStr "GC_ID")]; JObj [("id", JStr "ISO_ALPHA_2_CD")];
       JObj [("type", JStr "text")]; JObj [("id", JStr "GC_ID")]] = Ok ix /\
    iso_alpha_2_index ix = Some 1%nat /\ gc_id_index ix = Some 3%nat /\
    gc_nm_ab_en_index ix = None /\
    located "GC_ID"
      [JObj [("id", JStr "GC_ID")]; JObj [("id", JStr "ISO_ALPHA_2_CD")];
       JObj [("type", JStr "text")]; JObj [("id", JStr "GC_ID")]] (Some 3%nat).
Proof.
  destruct (scan_finds_last_fields
              [JObj [("id", JStr "GC_ID")]; JObj [("id", JStr "ISO_ALPHA_2_CD")];
               JObj [("type", JStr "text")]; JObj [("id", JStr "GC_ID")]])
    as (ix & Hscan & _ & Hid & _).
  { repeat constructor; eexists; reflexivity. }
  vm_compute in Hscan. injection Hscan as <-.
  eexists. split; [reflexivity|]. repeat split; try reflexivity; apply Hid.
Defined.

Lemma last_named_None name fields :
  (forall field, In field fields -> field_named name field = false) ->
  last_named name fields = None.
Proof.
  intros Hnone. pose proof (last_named_located name fields) as H.
  destruct (last_named name fields) as [j|]; [|reflexivity].
  destruct H as [(field & Hnth & Hnamed) _].
  rewrite (Hnone field) in Hnamed; [discriminate | eapply nth_error_In; exact Hnth].
Qed.

Lemma last_named_Some name fields field :
  In field fields -> field_named name field = true ->
  last_named name fields <> None.
Proof.
  intros Hin Hnamed Hnone. pose proof (last_named_located name fields) as H.
  rewrite Hnone in H. simpl in H. rewrite (H field Hin) in Hnamed. discriminate.
Qed.

(** X10. When the field list, all objects, names the ISO column but not all
    of the three GC columns, nothing is merged: the indices found by id are
    kept, line 118 finds one of them missing, and the table stays as it was
    whatever the records hold. *)
Theorem missing_column_no_merge reply gc_data fields items iso_field d :
  fetch reply = Ok gc_data ->
  method_get gc_data "fields" (JArr []) = Ok fields ->
  iterate fields = Ok items ->
  Forall is_object items ->
  In iso_field items -> field_named "ISO_ALPHA_2_CD" iso_field = true ->
  (forall field, In field items -> field_named "GC_ID" field = false) \/
  (forall field, In field items -> field_named "GC_NM_AB_EN" field = false) \/
  (forall field, In field items -> field_named "GC_NM_AB_FR" field = false) ->
  enrichment reply d = d.
Proof.
  intros Hfetch Hfields Hitems Hobj Hin Hiso Hmissing.
  unfold enrichment, enrich, bindM, lift. rewrite Hfetch.
  unfold locate_columns. rewrite Hfields. cbn [bind]. rewrite Hitems. cbn [bind].
  rewrite (scan_fields_last items Hobj). cbn [bind].
  assert (Hrec : exists records, method_get gc_data "records" (JArr []) = Ok records).
  { destruct gc_data; try discriminate. simpl.
    destruct (dict_get "records" members); eauto. }
  destruct Hrec as [records ->]. cbn [bind iso_alpha_2_index no_indices].
  pose proof (last_named_Some "ISO_ALPHA_2_CD" items iso_field Hin Hiso) as Hsome.
  destruct (last_named "ISO_ALPHA_2_CD" items) as [j|]; [|congruence].
  cbn [fst snd]. unfold all_indices.
  cbn [iso_alpha_2_index gc_id_index gc_nm_ab_en_index gc_nm_ab_fr_index no_indices].
  destruct Hmissing as [H|[H|H]]; rewrite (last_named_None _ _ H);
    repeat match goal with
           | |- context [last_named ?n items] => destruct (last_named n items)
           end; reflexivity.
Qed.

Lemma missing_column_no_merge_witness :
  enrichment sample_no_id_reply (harvested sample_metadata sample_regions)
  = harvested sample_metadata sample_regions.
Proof.
  eapply (missing_column_no_merge sample_no_id_reply _ _ _
            (JObj [("id", JStr "ISO_ALPHA_2_CD")])).
  - reflexivity.
  - reflexivity.
  - reflexivity.
  - repeat constructor; eexists; reflexivity.
  - simpl. tauto.
  - reflexivity.
  - left. intros field [<-|[<-|[<-|[<-|[]]]]]; reflexivity.
Defined.

(** ** The merge loop: which fetched record a key gets its fields from *)

Lemma for_each_app {A : Type} (body : A -> M unit) l1 l2 d :
  for_each body (l1 ++ l2) d
  = match for_each body l1 d with
    | (d1, Ok _) => for_each body l2 d1
    | (d1, Raise e) => (d1, Raise e)
    end.
Proof.
  revert d. induction l1 as [|a l1 IH]; intros d; simpl; [reflexivity|].
  unfold bindM. destruct (body a d) as [d1 [[]|e]]; [apply IH | reflexivity].
Qed.

(** X11. When several fetched records name the same key, the last one the
    loop gets to wins: if the loop reaches [record] without raising, the
    record names the key [k] of the table and no later fetched record does,
    then after the loop, whether or not it raises later, the GC fields
    stored under [k] are the cells of [record]. *)
Theorem last_row_wins c before record after d k r :
  dict_get k d = Some r ->
  snd (for_each (merge_record c) before d) = Ok tt ->
  row_for c record k ->
  (forall later, In later after -> ~ row_for c later k) ->
  exists r',
    dict_get k (fst (for_each (merge_record c) (before ++ record :: after) d))
    = Some r' /\
    gc_from c record r'.
Proof.
  intros Hget Hbefore Hrow Hlater.
  rewrite for_each_app.
  destruct (for_each_merge_spec c before d k r Hget) as (r1 & Hr1 & _).
  destruct (for_each (merge_record c) before d) as [d1 res] eqn:Erun.
  simpl in Hbefore, Hr1. subst res. simpl. unfold bindM.
  destruct (merge_record_cases c record d1)
    as [[_ Hskip] | [(e & _ & Hfail) | (k0 & r0 & v1 & v2 & v3 & Hrow0 & Hget0 & E1 & E2 & E3 & Hstep)]].
  - rewrite (Hskip k Hrow) in Hr1. discriminate.
  - exfalso. exact (Hfail k Hrow).
  - assert (k0 = k) by (eapply row_for_functional; eassumption). subst k0.
    rewrite Hstep.
    destruct (for_each_merge_spec c after (dict_set k (with_gc v1 v2 v3 r0) d1) k
                (with_gc v1 v2 v3 r0) (dict_get_set_eq _ _ _))
      as (r' & Hr' & Hcase).
    exists r'. split; [exact Hr'|].
    destruct Hcase as [[-> _] | (later & Hreach & Hrow' & _)].
    + now apply gc_from_with_gc.
    + exfalso. apply (Hlater later); [eapply reached_In; exact Hreach | exact Hrow'].
Qed.

Lemma last_row_wins_witness :
  exists r',
    dict_get "CA"
      (fst (for_each (merge_record {| col_iso := 1; col_id := 0; col_en := 2; col_fr := 3 |})
                     ([sample_row "1" "CA" "Old" "Ancien"]
                      ++ sample_row "2" "CA" "New" "Nouveau"
                      :: [sample_row "3" "GB" "Other" "Autre"; JInt 5])
                     (harvested sample_metadata sample_regions)))
    = Some r' /\
    GC_ID r' = Some (JStr "2") /\ GC_NM_AB_EN r' = Some (JStr "New").
Proof.
  destruct (dict_get "CA" (harvested sample_metadata sample_regions)) as [r|] eqn:Eget;
    [|vm_compute in Eget; discriminate].
  destruct (last_row_wins {| col_iso := 1; col_id := 0; col_en := 2; col_fr := 3 |}
              [sample_row "1" "CA" "Old" "Ancien"]
              (sample_row "2" "CA" "New" "Nouveau")
              [sample_row "3" "GB" "Other" "Autre"; JInt 5]
              (harvested sample_metadata sample_regions) "CA" r Eget)
    as (r' & Hr' & v1 & v2 & v3 & E1 & E2 & E3 & H1 & H2 & H3).
  - reflexivity.
  - exists 4%nat. split; [reflexivity|]. split; [unfold max_index; simpl; lia|].
    split; [reflexivity | discriminate].
  - intros later [<-|[<-|[]]] (n & Hlen & Hmax & Hiso & _).
    + simpl in Hiso. injection Hiso as H. discriminate.
    + discriminate.
  - exists r'. split; [exact Hr'|].
    simpl in E1, E2. injection E1 as <-. injection E2 as <-. auto.
Defined.

(** ** The sort: one table for one set of entries *)

Lemma entry_before_asym a b : entry_before a b -> entry_before b a -> False.
Proof.
  intros (x & y & Hx & Hy & Hab) (y' & x' & Hy' & Hx' & Hba).
  rewrite Hy in Hy'. rewrite Hx in Hx'. injection Hy' as <-. injection Hx' as <-.
  destruct Hab as [Hlt | [Hcc Hlt]]; destruct Hba as [Hlt' | [Hcc' Hlt']]; try lia.
  - rewrite Hcc', Hx in Hy. injection Hy as ->. lia.
  - rewrite Hcc, Hy in Hx. injection Hx as ->. lia.
  - apply ltb_iff in Hlt, Hlt'.
    apply (String_as_OT.lt_not_eq (fst a) (fst a)); [|reflexivity].
    eapply String_as_OT.lt_trans; eassumption.
Qed.

Lemma sorted_unique {A : Type} (R : A -> A -> Prop) l :
  (forall a b, R a b -> R b a -> False) ->
  forall l', StronglySorted R l -> StronglySorted R l' -> Permutation l l' -> l = l'.
Proof.
  intros Hasym. induction l as [|x xs IH]; intros l' Hs Hs' Hperm.
  - apply Permutation_nil in Hperm. now subst.
  - destruct l' as [|y ys];
      [apply Permutation_sym, Permutation_nil in Hperm; discriminate|].
    apply StronglySorted_inv in Hs as [Hxs Hx].
    apply StronglySorted_inv in Hs' as [Hys Hy].
    rewrite Forall_forall in Hx, Hy.
    assert (x = y) as ->.
    { assert (Hxin : In x (y :: ys)) by (apply (Permutation_in _ Hperm); now left).
      assert (Hyin : In y (x :: xs))
        by (apply (Permutation_in _ (Permutation_sym Hperm)); now left).
      destruct Hxin as [->|Hxin]; [reflexivity|].
      destruct Hyin as [->|Hyin]; [reflexivity|].
      exfalso. apply (Hasym x y); auto. }
    f_equal. apply IH; [assumption | assumption |].
    eapply Permutation_cons_inv. exact Hperm.
Qed.

Lemma sort_table_of_permutation d d' :
  NoDup (keys d) ->
  Forall (fun e => exists z, country_code (snd e) = str_int z) d ->
  Permutation d d' ->
  sort_table d = sort_table d'.
Proof.
  intros Hnd Hcanon Hperm.
  destruct (sort_table_spec d Hnd Hcanon) as (out & Hsort & Hout & Hsorted).
  destruct (sort_table_spec d') as (out' & Hsort' & Hout' & Hsorted').
  { eapply Permutation_NoDup; [|exact Hnd]. now apply Permutation_map. }
  { rewrite Forall_forall in *. intros e He. apply Hcanon.
    now apply (Permutation_in _ (Permutation_sym Hperm)). }
  rewrite Hsort, Hsort'. f_equal.
  apply (sorted_unique entry_before);
    [exact entry_before_asym | assumption | assumption |].
  rewrite Hout, Hperm. now symmetry.
Qed.

(** X12. The written table is a fixed point of the sort: sorting it again
    with lines 141-155 returns it unchanged. *)
Theorem written_table_is_sorted metadata_for_region regions reply :
  exists w,
    main metadata_for_region regions reply = Ok w /\
    sort_table (document w) = Ok (document w).
Proof.
  destruct (main_runs metadata_for_region regions reply)
    as (w & Hmain & _ & Hperm & Hsorted).
  exists w. split; [exact Hmain|].
  destruct (sort_table_spec (document w)) as (out & Hsort & Hout & Hsorted').
  { eapply Permutation_NoDup;
      [|exact (enriched_NoDup metadata_for_region regions reply)].
    symmetry. now apply Permutation_map. }
  { pose proof (enriched_derived_shape metadata_for_region regions reply) as Hall.
    rewrite Forall_forall in *. intros e He.
    apply (Hall e). now apply (Permutation_in _ Hperm). }
  rewrite Hsort. f_equal.
  apply (sorted_unique entry_before);
    [exact entry_before_asym | assumption | assumption | assumption].
Qed.

(** ** The script: the order of the region enumeration does not matter *)

Lemma same_lookups_permutation (d d' : table) :
  NoDup (keys d) -> NoDup (keys d') -> same_lookups d d' -> Permutation d d'.
Proof.
  intros Hnd Hnd' Hsame. apply NoDup_Permutation.
  - eapply NoDup_map_inv. exact Hnd.
  - eapply NoDup_map_inv. exact Hnd'.
  - intros [k v]. split; intros Hin.
    + apply dict_get_In. rewrite <- Hsame. now apply In_dict_get.
    + apply dict_get_In. rewrite Hsame. now apply In_dict_get.
Qed.

Lemma harvest_same_lookups metadata_for_region regions regions' :
  (forall k, In k regions <-> In k regions') ->
  same_lookups (get_up_to_date_phone_formats metadata_for_region regions)
               (get_up_to_date_phone_formats metadata_for_region regions').
Proof.
  intros Hsame k.
  assert (Hone : forall rs,
             dict_get k (get_up_to_date_phone_formats metadata_for_region rs)
             = if in_dec string_dec k rs
               then match usable_lengths metadata_for_region k with
                    | Some _ => dict_get k (harvest_region metadata_for_region [] k)
                    | None => None
                    end
               else None).
  { intros rs. unfold get_up_to_date_phone_formats.
    destruct (in_dec string_dec k rs) as [Hin|Hni].
    - destruct (usable_lengths metadata_for_region k) as [lens|] eqn:Eu.
      + pose proof (harvest_lookup_usable metadata_for_region rs [] k lens Hin Eu)
          as Hsome.
        destruct (harvest_fold_lookup metadata_for_region rs [] k) as [H|[_ H]];
          [|exact H].
        rewrite H in Hsome. simpl in Hsome. congruence.
      + apply (harvest_lookup_unusable metadata_for_region rs k Eu).
    - now rewrite harvest_not_listed. }
  rewrite (Hone regions), (Hone regions').
  destruct (in_dec string_dec k regions) as [Hin|Hni];
    destruct (in_dec string_dec k regions') as [Hin'|Hni']; try reflexivity.
  - exfalso. apply Hni'. now apply Hsame.
  - exfalso. apply Hni. now apply Hsame.
Qed.

Lemma add_fields_lookup d k :
  dict_get k (add_fields d) = option_map (add_fields_record k) (dict_get k d).
Proof.
  induction d as [|[k' v] d IH]; simpl; [reflexivity|].
  destruct (String.eqb_spec k k') as [->|Hne]; [reflexivity | exact IH].
Qed.

Lemma respects_bind {A B : Type} (m : M A) (k : A -> M B) :
  respects_lookups m -> (forall a, respects_lookups (k a)) ->
  respects_lookups (bindM m k).
Proof.
  intros Hm Hk d d' Hsame. unfold bindM.
  destruct (Hm d d' Hsame) as [Hres Htab].
  destruct (m d) as [d1 [a|e]], (m d') as [d1' [a'|e']]; simpl in *;
    try discriminate.
  - injection Hres as <-. now apply Hk.
  - injection Hres as <-. split; [reflexivity | exact Htab].
Qed.

Lemma respects_lift {A : Type} (r : result A) : respects_lookups (lift r).
Proof. intros d d' Hsame. simpl. auto. Qed.

Lemma respects_ret {A : Type} (a : A) : respects_lookups (ret a).
Proof. intros d d' Hsame. simpl. auto. Qed.

Lemma respects_update k f : respects_lookups (update_record k f).
Proof.
  intros d d' Hsame. unfold update_record. rewrite <- (Hsame k).
  destruct (dict_get k d) as [r|]; simpl; [|auto].
  split; [reflexivity|]. intros k'.
  destruct (string_dec k k') as [<-|Hne].
  - now rewrite !dict_get_set_eq.
  - now rewrite !dict_get_set_neq.
Qed.

Lemma respects_membership v : respects_lookups (membership v).
Proof.
  intros d d' Hsame. unfold membership. simpl. split; [|assumption].
  destruct v; simpl; try reflexivity. unfold dict_mem. now rewrite (Hsame s).
Qed.

Lemma respects_merge_record c record : respects_lookups (merge_record c record).
Proof.
  unfold merge_record.
  apply respects_bind; [apply respects_lift|]. intros n.
  destruct (max_index c <? n)%nat; [|apply respects_ret].
  apply respects_bind; [apply respects_lift|]. intros iso_code.
  destruct (truthy iso_code); [|apply respects_ret].
  apply respects_bind; [apply respects_membership|]. intros [k|];
    [|apply respects_ret].
  repeat (apply respects_bind;
          [first [apply respects_lift | apply respects_update]|]; intros ?).
  apply respects_update.
Qed.

Lemma respects_for_each c records :
  respects_lookups (for_each (merge_record c) records).
Proof.
  induction records as [|record records IH]; simpl; [apply respects_ret|].
  apply respects_bind; [apply respects_merge_record | intros _; exact IH].
Qed.

Lemma respects_enrich reply : respects_lookups (enrich reply).
Proof.
  unfold enrich.
  apply respects_bind; [apply respects_lift|]. intros gc_data.
  apply respects_bind; [apply respects_lift|]. intros located.
  destruct (all_indices (fst located)); [|apply respects_ret].
  unfold merge_all. apply respects_bind; [apply respects_lift|]. intros records.
  apply respects_for_each.
Qed.

(** X13. The written file does not depend on the order, or the repetitions,
    in which the supported regions are enumerated: two enumerations with
    the same members give the same run, entry for entry. *)
Theorem enumeration_order_irrelevant metadata_for_region regions regions' reply :
  (forall k, In k regions <-> In k regions') ->
  main metadata_for_region regions reply = main metadata_for_region regions' reply.
Proof.
  intros Hsame. unfold main. f_equal.
  apply sort_table_of_permutation.
  - apply enriched_NoDup.
  - eapply Forall_impl; [|apply enriched_derived_shape]. intros kv H. apply H.
  - apply same_lookups_permutation; [apply enriched_NoDup | apply enriched_NoDup|].
    unfold enriched, enrichment. apply respects_enrich.
    intros k. unfold harvested. rewrite !add_fields_lookup.
    now rewrite (harvest_same_lookups metadata_for_region regions regions' Hsame k).
Qed.

Lemma enumeration_order_irrelevant_witness :
  main sample_metadata sample_regions sample_reply
  = main sample_metadata (rev sample_regions ++ ["GB"; "US"]) sample_reply.
Proof.
  apply enumeration_order_irrelevant. intros k.
  rewrite in_app_iff, <- in_rev. simpl. tauto.
Defined.

(** ** Edge cases of a run *)

(** X14. When no region of the enumeration has usable metadata, and so also
    when the enumeration is empty, the script still writes the file, with an
    empty mapping, whatever the HTTP reply. *)
Theorem no_usable_region_empty_file metadata_for_region regions reply :
  (forall k, In k regions -> usable metadata_for_region k = false) ->
  main metadata_for_region regions reply
  = Ok {| file_name := "phone_formats_e164.json"; document := [] |}.
Proof.
  intros Hnone.
  assert (Hharvest : get_up_to_date_phone_formats metadata_for_region regions = []).
  { destruct (get_up_to_date_phone_formats metadata_for_region regions)
      as [|[k r] rest] eqn:E; [reflexivity|].
    assert (Hin : In k (keys (get_up_to_date_phone_formats metadata_for_region regions)))
      by (rewrite E; now left).
    apply harvest_keys_iff in Hin as [Hin Hu]. rewrite (Hnone k Hin) in Hu.
    discriminate. }
  unfold main.
  assert (Henriched : enriched metadata_for_region regions reply = []).
  { pose proof (enriched_keys metadata_for_region regions reply) as Hkeys.
    unfold harvested in Hkeys. rewrite Hharvest in Hkeys. simpl in Hkeys.
    destruct (enriched metadata_for_region regions reply); [reflexivity|discriminate]. }
  rewrite Henriched. reflexivity.
Qed.

Lemma no_usable_region_empty_file_witness :
  main sample_metadata ["XE"; "XD"; "XR"; "ZZ"] sample_reply
  = Ok {| file_name := "phone_formats_e164.json"; document := [] |}.
Proof.
  apply no_usable_region_empty_file.
  intros k [<-|[<-|[<-|[<-|[]]]]]; reflexivity.
Defined.

(** X15. A fetched record that is not a row stops the merge for good: when
    [len] of it raises (a number, a boolean, null), or when it is an object
    with more members than the largest column index (its lookup by position
    raises), the table after the loop is the table the records before it
    left, and no record after it is merged. *)
Theorem merge_stops_at_bad_record c before bad after d :
  (exists e, py_len bad = Raise e) \/
  (exists members, bad = JObj members /\ (max_index c < List.length members)%nat) ->
  fst (for_each (merge_record c) (before ++ bad :: after) d)
  = fst (for_each (merge_record c) before d) /\
  snd (for_each (merge_record c) (before ++ bad :: after) d) <> Ok tt.
Proof.
  intros Hbad. rewrite for_each_app.
  destruct (for_each (merge_record c) before d) as [d1 [[]|e1]]; simpl;
    [|split; [reflexivity | discriminate]].
  unfold bindM.
  assert (Hstep : exists e, merge_record c bad d1 = (d1, Raise e)).
  { unfold merge_record, bindM, lift.
    destruct Hbad as [[e He] | (members & -> & Hlen)].
    - rewrite He. eauto.
    - simpl. apply Nat.ltb_lt in Hlen. rewrite Hlen. eauto. }
  destruct Hstep as [e ->]. split; [reflexivity | discriminate].
Qed.

Lemma merge_stops_at_bad_record_witness :
  fst (for_each (merge_record {| col_iso := 1; col_id := 0; col_en := 2; col_fr := 3 |})
                ([sample_row "1000124" "CA" "Canada" "Canada"]
                 ++ JObj [("GC_ID", JStr "1000826"); ("ISO_ALPHA_2_CD", JStr "GB");
                          ("GC_NM_AB_EN", JStr "United Kingdom");
                          ("GC_NM_AB_FR", JStr "Royaume-Uni")]
                 :: [sample_row "1000840" "US" "United States" "Etats-Unis"])
                (harvested sample_metadata sample_regions))
  = fst (for_each (merge_record {| col_iso := 1; col_id := 0; col_en := 2; col_fr := 3 |})
                  [sample_row "1000124" "CA" "Canada" "Canada"]
                  (harvested sample_metadata sample_regions)).
Proof.
  apply merge_stops_at_bad_record. right. eexists. split; [reflexivity|].
  unfold max_index. simpl. lia.
Defined.

(** ** The counter the loop prints *)

Lemma merge_record_counting_spec c record n d :
  merge_record_counting c record n d
  = (fst (merge_record c record d),
     match snd (merge_record c record d) with
     | Ok _ => Ok (n + if names_a_key c d record then 1 else 0)%nat
     | Raise e => Raise e
     end).
Proof.
  unfold merge_record_counting, merge_record, names_a_key, bindM, lift, ret, membership.
  destruct (py_len record) as [len|e] eqn:Elen; [|reflexivity].
  destruct (max_index c <? len)%nat eqn:Emax; simpl.
  2:{ destruct (getitem record (col_iso c)) as [[]|]; simpl;
        now rewrite Nat.add_0_r. }
  destruct (getitem record (col_iso c)) as [iso|e] eqn:Eiso; [|reflexivity].
  destruct (truthy iso) eqn:Etruthy.
  2:{ simpl. destruct iso; try (now rewrite Nat.add_0_r).
      simpl in Etruthy. apply negb_false_iff in Etruthy. rewrite Etruthy. simpl.
      now rewrite Nat.add_0_r. }
  destruct iso as [ | b | z | f | s | items | members]; simpl;
    try (now rewrite Nat.add_0_r); try reflexivity.
  simpl in Etruthy. rewrite Etruthy. simpl. unfold dict_mem.
  destruct (dict_get s d) as [r|] eqn:Eget; simpl; [|now rewrite Nat.add_0_r].
  assert (Hobj : forall members, record <> JObj members).
  { intros members ->. discriminate. }
  apply Nat.ltb_lt in Emax.
  assert (Hle : (col_id c <= max_index c /\ col_en c <= max_index c /\
                 col_fr c <= max_index c)%nat) by (unfold max_index; lia).
  destruct (getitem_in_range record len (col_id c) Elen ltac:(lia) Hobj) as [v1 E1].
  destruct (getitem_in_range record len (col_en c) Elen ltac:(lia) Hobj) as [v2 E2].
  destruct (getitem_in_range record len (col_fr c) Elen ltac:(lia) Hobj) as [v3 E3].
  rewrite E1, E2, E3. unfold update_record.
  rewrite Eget, !dict_get_set_eq. reflexivity.
Qed.

Lemma names_a_key_keys c d d' record :
  keys d = keys d' -> names_a_key c d record = names_a_key c d' record.
Proof.
  intros Hkeys. unfold names_a_key.
  destruct (py_len record); [|reflexivity].
  destruct (getitem record (col_iso c)) as [[]|]; try reflexivity.
  f_equal. unfold dict_mem.
  destruct (dict_get s d) eqn:E, (dict_get s d') eqn:E'; try reflexivity.
  - apply dict_get_None in E'. exfalso. apply E'. rewrite <- Hkeys.
    apply dict_get_In in E. change s with (fst (s, r)). now apply in_map.
  - apply dict_get_None in E. exfalso. apply E. rewrite Hkeys.
    apply dict_get_In in E'. change s with (fst (s, r)). now apply in_map.
Qed.

Lemma merge_record_keys c record d : keys (fst (merge_record c record d)) = keys d.
Proof.
  apply (merge_record_keeps (fun d' => keys d' = keys d)); [|reflexivity].
  intros k r d' Hd' Hget v. rewrite !dict_set_present by congruence. auto.
Qed.

(** X16. The loop with its counter writes the table that [merge_record]
    writes, and when it ends without raising the number it prints at line
    129 is the number of fetched records that cover the four columns and
    hold in their ISO column a non-empty key of the table: a number of
    records, which counts a region once for each record that names it. *)
Theorem countries_processed_counts_records c records d :
  fst (for_each_counting c records 0 d) = fst (for_each (merge_record c) records d) /\
  forall n,
    snd (for_each_counting c records 0 d) = Ok n ->
    n = List.length (filter (names_a_key c d) records).
Proof.
  assert (Hgen : forall d1 n0,
             keys d1 = keys d ->
             fst (for_each_counting c records n0 d1)
             = fst (for_each (merge_record c) records d1) /\
             forall n,
               snd (for_each_counting c records n0 d1) = Ok n ->
               n = (n0 + List.length (filter (names_a_key c d) records))%nat).
  { induction records as [|record rest IH]; intros d1 n0 Hkeys; simpl.
    - split; [reflexivity|]. intros n H. injection H as <-. lia.
    - unfold bindM. rewrite merge_record_counting_spec.
      pose proof (merge_record_keys c record d1) as Hkeys1.
      destruct (merge_record c record d1) as [d2 [[]|e]]; simpl in *.
      + destruct (IH d2 (n0 + (if names_a_key c d1 record then 1 else 0))%nat)
          as [Htab Hcount]; [congruence|].
        split; [exact Htab|]. intros n Hn. rewrite (Hcount n Hn).
        rewrite (names_a_key_keys c d1 d record Hkeys).
        destruct (names_a_key c d record); simpl; lia.
      + split; [reflexivity | discriminate]. }
  destruct (Hgen d 0%nat eq_refl) as [Htab Hcount].
  split; [exact Htab|]. intros n Hn. now rewrite (Hcount n Hn).
Qed.

Lemma countries_processed_counts_records_witness :
  snd (for_each_counting {| col_iso := 1; col_id := 0; col_en := 2; col_fr := 3 |}
         [sample_row "1" "CA" "Canada" "Canada"; sample_row "2" "FJ" "Fiji" "Fidji";
          sample_row "3" "CA" "Canada" "Canada"]
         0 (harvested sample_metadata sample_regions)) = Ok 2%nat /\
  2%nat = List.length
            (filter (names_a_key {| col_iso := 1; col_id := 0; col_en := 2; col_fr := 3 |}
                                 (harvested sample_metadata sample_regions))
                    [sample_row "1" "CA" "Canada" "Canada";
                     sample_row "2" "FJ" "Fiji" "Fidji";
                     sample_row "3" "CA" "Canada" "Canada"]).
Proof.
  assert (Hrun : snd (for_each_counting
                        {| col_iso := 1; col_id := 0; col_en := 2; col_fr := 3 |}
                        [sample_row "1" "CA" "Canada" "Canada";
                         sample_row "2" "FJ" "Fiji" "Fidji";
                         sample_row "3" "CA" "Canada" "Canada"]
                        0 (harvested sample_metadata sample_regions)) = Ok 2%nat)
    by (vm_compute; reflexivity).
  split; [exact Hrun|].
  exact (proj2 (countries_processed_counts_records _ _ _) 2%nat Hrun).
Defined.

(** ** The fallback on narrow rows *)

Lemma for_each_short c rows d :
  Forall (fun row => exists n, py_len row = Ok n /\ (n <= max_index c)%nat) rows ->
  for_each (merge_record c) rows d = (d, Ok tt).
Proof.
  induction 1 as [|row rows (n & Hlen & Hle) _ IH]; simpl; [reflexivity|].
  unfold bindM at 1. unfold merge_record, bindM, lift. rewrite Hlen.
  apply Nat.ltb_ge in Hle. rewrite Hle. simpl. exact IH.
Qed.

(** X17. When no field is named ISO_ALPHA_2_CD, the fallback reads the ISO
    code at position 19, so rows of fewer than twenty cells are all passed
    over by the length test of line 120: the enrichment ends without a
    failure and without having changed the table. *)
Theorem fallback_needs_twenty_cells reply gc_data fields items rows d :
  fetch reply = Ok gc_data ->
  method_get gc_data "fields" (JArr []) = Ok fields ->
  iterate fields = Ok items ->
  Forall is_object items ->
  (forall field, In field items -> field_named "ISO_ALPHA_2_CD" field = false) ->
  method_get gc_data "records" (JArr []) = Ok (JArr rows) ->
  Forall (fun row => exists n, py_len row = Ok n /\ (n <= 19)%nat) rows ->
  enrich reply d = (d, Ok tt).
Proof.
  intros Hfetch Hfields Hitems Hobj Hnone Hrecords Hshort.
  unfold enrich, bindM, lift. rewrite Hfetch.
  unfold locate_columns. rewrite Hfields. cbn [bind]. rewrite Hitems. cbn [bind].
  rewrite (scan_fields_last items Hobj). cbn [bind]. rewrite Hrecords.
  cbn [bind iso_alpha_2_index no_indices].
  rewrite (last_named_None _ _ Hnone).
  destruct rows as [|row rows'] eqn:Erows; cbn [truthy fst snd].
  - unfold all_indices. cbn [iso_alpha_2_index]. reflexivity.
  - cbn [all_indices fallback_indices iso_alpha_2_index gc_id_index
         gc_nm_ab_en_index gc_nm_ab_fr_index].
    unfold merge_all, bindM, lift. cbn [iterate].
    apply for_each_short. exact Hshort.
Qed.

Lemma fallback_needs_twenty_cells_witness :
  enrich sample_narrow_reply (harvested sample_metadata sample_regions)
  = (harvested sample_metadata sample_regions, Ok tt).
Proof.
  eapply (fallback_needs_twenty_cells sample_narrow_reply).
  - reflexivity.
  - reflexivity.
  - reflexivity.
  - repeat constructor; eexists; reflexivity.
  - intros field [<-|[]]. reflexivity.
  - reflexivity.
  - repeat constructor; exists 4%nat; (split; [reflexivity | lia]).
Defined.
